(** * PlantAir: soil-sensor acquisition sketch and plant-recommendation notebooks

    A shallow embedding of
    - the Arduino sketch that polls an RS-485 NPK probe and two analog probes,
    - the notebook that generates the synthetic training corpus,
    - the notebook that scales, encodes and grid-searches a KNN classifier,
    followed by the properties established about them. *)

From Stdlib Require Import ZArith List Bool Lia String Ascii.
From Stdlib Require Import QArith Qround Qminmax Qabs Qpower.
From Stdlib Require Import Floats.SpecFloat.
From Stdlib Require Import Reals Psatz.
From Stdlib Require Import Sorting.Sorted Sorting.Permutation.
Import ListNotations.

(* ================================================================== *)
(** * The sketch: NPK queries over the half-duplex bus *)
(* ================================================================== *)

Module Sensor.

Local Open Scope Z_scope.

(** A C [byte] is an integer in [0, 256); storing an [int] in it keeps the
    low eight bits. *)
Definition is_byte (v : Z) : Prop := 0 <= v < 256.
Definition byte_of_int (v : Z) : Z := v mod 256.

(** [const byte nitro[]], [phos[]], [pota[]]. *)
Definition nitro : list Z := [0x01; 0x03; 0x00; 0x1e; 0x00; 0x01; 0xe4; 0x0c].
Definition phos  : list Z := [0x01; 0x03; 0x00; 0x1f; 0x00; 0x01; 0xb5; 0xcc].
Definition pota  : list Z := [0x01; 0x03; 0x00; 0x20; 0x00; 0x01; 0x85; 0xc0].

(** [sizeof] of a byte array is its number of elements. *)
Definition sizeof (a : list Z) : Z := Z.of_nat (List.length a).

(** [#define RE 8], [#define DE 7]. *)
Inductive Pin := RE | DE.
Inductive Level := LOW | HIGH.

(** What the sketch does to the outside world, in program order. *)
Inductive Event :=
| DigitalWrite (p : Pin) (l : Level)
| Delay (ms : Z)
| ModWrite (buf : list Z) (len : Z) (sent : Z)
| ModRead (got : Z).

(** The sketch's mutable state: the global [byte values[11]], the two
    direction pins, the receive buffer of the software serial port [mod],
    and the log of the events performed so far (oldest first). *)
Record Board := mkBoard {
  values : list Z;
  pinRE : Level;
  pinDE : Level;
  rx : list Z;
  trace : list Event
}.

(** A C global without an initialiser is zero-filled. *)
Definition power_on : Board :=
  mkBoard (repeat 0 11) LOW LOW [] [].

(** Statements are state transformers on the board. *)
Definition M (A : Type) : Type := Board -> A * Board.

Definition ret {A} (a : A) : M A := fun b => (a, b).
Definition bind {A B} (m : M A) (k : A -> M B) : M B :=
  fun b => let (a, b') := m b in k a b'.

Notation "x <- m ;; k" := (bind m (fun x => k))
  (at level 61, m at next level, right associativity).
Notation "m ;;; k" := (bind m (fun _ => k))
  (at level 61, right associativity).

Definition emit (e : Event) (b : Board) : Board :=
  mkBoard (values b) (pinRE b) (pinDE b) (rx b) (trace b ++ [e]).

Definition digitalWrite (p : Pin) (l : Level) : M unit := fun b =>
  let b' := match p with
            | RE => mkBoard (values b) l (pinDE b) (rx b) (trace b)
            | DE => mkBoard (values b) (pinRE b) l (rx b) (trace b)
            end in
  (tt, emit (DigitalWrite p l) b').

Definition delay (ms : Z) : M unit := fun b => (tt, emit (Delay ms) b).

(** [mod.write(buf, len)]: the number of bytes the port accepted is decided
    by the port, not by the sketch; it is the parameter [sent]. *)
Definition mod_write (sent : Z) (buf : list Z) (len : Z) : M Z := fun b =>
  (sent, emit (ModWrite buf len sent) b).

(** [mod.read()]: the oldest byte of the receive buffer, or [-1] when the
    buffer is empty. *)
Definition mod_read : M Z := fun b =>
  match rx b with
  | [] => (-1, emit (ModRead (-1)) b)
  | x :: r =>
      (x, emit (ModRead x) (mkBoard (values b) (pinRE b) (pinDE b) r (trace b)))
  end.

(** [a[i] = v] on a list; the sketch only stores at indices below 7. *)
Fixpoint store (a : list Z) (i : nat) (v : Z) : list Z :=
  match a, i with
  | [], _ => []
  | _ :: t, O => v :: t
  | h :: t, S j => h :: store t j v
  end.

Definition set_values (i : Z) (v : Z) : M unit := fun b =>
  (tt, mkBoard (store (values b) (Z.to_nat i) v)
               (pinRE b) (pinDE b) (rx b) (trace b)).

Definition get_values (i : Z) : M Z := fun b =>
  (nth (Z.to_nat i) (values b) 0, b).

(** [for (byte i = lo; i < lo + n; i++) body(i)]. *)
Fixpoint for_byte (n : nat) (i : Z) (body : Z -> M unit) : M unit :=
  match n with
  | O => ret tt
  | S k => body i ;;; for_byte k (i + 1) body
  end.

(** [byte nitrogen()]. *)
Definition nitrogen (sent : Z) : M Z :=
  digitalWrite DE HIGH ;;;
  digitalWrite RE HIGH ;;;
  delay 10 ;;;
  n <- mod_write sent nitro (sizeof nitro) ;;
  (if n =? 8 then
     digitalWrite DE LOW ;;;
     digitalWrite RE LOW ;;;
     for_byte 7 0 (fun i => v <- mod_read ;; set_values i (byte_of_int v))
   else ret tt) ;;;
  get_values 4.

(** [byte phosphorous()]. *)
Definition phosphorous (sent : Z) : M Z :=
  digitalWrite DE HIGH ;;;
  digitalWrite RE HIGH ;;;
  delay 10 ;;;
  n <- mod_write sent phos (sizeof phos) ;;
  (if n =? 8 then
     digitalWrite DE LOW ;;;
     digitalWrite RE LOW ;;;
     for_byte 7 0 (fun i => v <- mod_read ;; set_values i (byte_of_int v))
   else ret tt) ;;;
  get_values 4.

(** [byte potassium()]. *)
Definition potassium (sent : Z) : M Z :=
  digitalWrite DE HIGH ;;;
  digitalWrite RE HIGH ;;;
  delay 10 ;;;
  n <- mod_write sent pota (sizeof pota) ;;
  (if n =? 8 then
     digitalWrite DE LOW ;;;
     digitalWrite RE LOW ;;;
     for_byte 7 0 (fun i => v <- mod_read ;; set_values i (byte_of_int v))
   else ret tt) ;;;
  get_values 4.

(** The three queries, indexed by the nutrient they ask for. *)
Inductive Nutrient := Nitrogen | Phosphorus | Potassium.

Definition frame_of (n : Nutrient) : list Z :=
  match n with Nitrogen => nitro | Phosphorus => phos | Potassium => pota end.

Definition query (n : Nutrient) : Z -> M Z :=
  match n with
  | Nitrogen => nitrogen
  | Phosphorus => phosphorous
  | Potassium => potassium
  end.

(** One call of a query as the polling loop sees it: which nutrient, how many
    request bytes the port accepted, and which bytes the probe had delivered
    into the receive buffer by the time the sketch reads. *)
Record Call := mkCall {
  who : Nutrient;
  accepted : Z;
  delivered : list Z
}.

Definition deliver (bytes : list Z) (b : Board) : Board :=
  mkBoard (values b) (pinRE b) (pinDE b) (rx b ++ bytes) (trace b).

Definition call (c : Call) (b : Board) : Z * Board :=
  query (who c) (accepted c) (deliver (delivered c) b).

(** A sequence of calls, oldest first; the answers come back in the same
    order. *)
Fixpoint run (cs : list Call) (b : Board) : list Z * Board :=
  match cs with
  | [] => ([], b)
  | c :: rest =>
      let (v, b1) := call c b in
      let (vs, b2) := run rest b1 in
      (v :: vs, b2)
  end.

(** The answer of the latest call of a history whose request was accepted in
    full, or [0] when there is none. *)
Fixpoint last_accepted (cs : list Call) (answers : list Z) (dflt : Z) : Z :=
  match cs, answers with
  | c :: cs', v :: vs' =>
      last_accepted cs' vs' (if accepted c =? 8 then v else dflt)
  | _, _ => dflt
  end.

(** Closed forms used to describe one pass of the read loop: what [n]
    successive [mod.read()] calls return on a receive buffer [q], and the
    array after storing a list of bytes at consecutive indices from [k]. *)
Fixpoint reads (n : nat) (q : list Z) : list Z :=
  match n with
  | O => []
  | S m =>
      match q with
      | [] => -1 :: reads m []
      | x :: r => x :: reads m r
      end
  end.

Fixpoint store_from (a : list Z) (k : nat) (l : list Z) : list Z :=
  match l with
  | [] => a
  | v :: t => store_from (store a k v) (S k) t
  end.

(** The events that belong to the receive phase of a query. *)
Definition is_receive_event (e : Event) : bool :=
  match e with
  | ModRead _ => true
  | DigitalWrite _ LOW => true
  | _ => false
  end.

(** ** The wire format the frames are meant to follow

    Not part of the sketch: the Modbus RTU register address each frame names
    and the Modbus CRC-16 (reflected polynomial [0xA001], initial value
    [0xFFFF]) that closes a frame, low byte first. *)
Definition register (n : Nutrient) : Z :=
  match n with
  | Nitrogen => 0x001E
  | Phosphorus => 0x001F
  | Potassium => 0x0020
  end.

Fixpoint crc_shift (k : nat) (crc : Z) : Z :=
  match k with
  | O => crc
  | S j =>
      crc_shift j (if Z.testbit crc 0
                   then Z.lxor (Z.shiftr crc 1) 0xA001
                   else Z.shiftr crc 1)
  end.

Definition crc16 (bytes : list Z) : Z :=
  fold_left (fun crc b => crc_shift 8 (Z.lxor crc b)) bytes 0xFFFF.

(** The board a query leaves behind once the request has gone out. *)
Definition after_request (n : Nutrient) (sent : Z) (b : Board) : Board :=
  mkBoard (values b) HIGH HIGH (rx b)
          (trace b ++ [DigitalWrite DE HIGH; DigitalWrite RE HIGH; Delay 10;
                       ModWrite (frame_of n) 8 sent]).

(** A board on which an earlier nitrogen query read the value 42. *)
Definition after_reading_42 : Board :=
  snd (call (mkCall Nitrogen 8 [1; 3; 2; 0; 42; 0x38; 0x5b]) power_on).

(** ** The analog probes (body of [loop]) *)

(** Arduino's [long map(long x, long in_min, long in_max, long out_min,
    long out_max)]; C division truncates towards zero.  On the sketch's
    arguments the product stays below 2^31, so [long] arithmetic is exact. *)
Definition map (x in_min in_max out_min out_max : Z) : Z :=
  Z.quot ((x - in_min) * (out_max - out_min)) (in_max - in_min) + out_min.

(** [int moisturePercent = map(sensorValue2, 0, 1023, 0, 100);] *)
Definition moisturePercent (sensorValue2 : Z) : Z :=
  map sensorValue2 0 1023 0 100.

(** *** The pH arithmetic, in IEEE 754

    [float] is binary32.  [double], the type of the literals [5.0], [1023.0]
    and [14.0] and of every product below, is binary32 on AVR boards and
    binary64 on the 32-bit ones; the format, as (precision, maximal
    exponent), is the parameter [fmt].  Every assignment to a [float] rounds
    to binary32. *)
Definition binary32 : Z * Z := (24, 128).
Definition binary64 : Z * Z := (53, 1024).

Definition to_float (x : spec_float) : spec_float :=
  match x with
  | S754_finite s m e => binary_round 24 128 s m e
  | _ => x
  end.

Section Double.
Variable fmt : Z * Z.

(** An integer, or a literal with an integral value, as a [double]. *)
Definition of_int (z : Z) : spec_float :=
  binary_normalize (fst fmt) (snd fmt) z 0 false.

(** [float voltage1 = sensorValue1 * (5.0 / 1023.0);] *)
Definition voltage1 (sensorValue1 : Z) : spec_float :=
  to_float (SFmul (fst fmt) (snd fmt) (of_int sensorValue1)
              (SFdiv (fst fmt) (snd fmt) (of_int 5) (of_int 1023))).

(** [float pHValue = voltage1 * (14.0 / 5.0);] *)
Definition pHValue (sensorValue1 : Z) : spec_float :=
  to_float (SFmul (fst fmt) (snd fmt) (voltage1 sensorValue1)
              (SFdiv (fst fmt) (snd fmt) (of_int 14) (of_int 5))).
End Double.

(** The rational a finite float stands for. *)
Definition Q_of_float (x : spec_float) : option Q :=
  match x with
  | S754_zero _ => Some (0 # 1)%Q
  | S754_finite s m e =>
      Some (inject_Z (cond_Zopp s (Zpos m)) * Qpower (2 # 1) e)%Q
  | _ => None
  end.

(** The pH the formula of the sketch gives in exact arithmetic. *)
Definition pH_exact (raw : Z) : Q :=
  (inject_Z raw * (5 / 1023) * (14 / 5))%Q.

Definition pH_tolerance : Q := (1 # 524288)%Q.

Definition pH_checked (fmt : Z * Z) (raw : Z) : bool :=
  match Q_of_float (pHValue fmt raw) with
  | Some q =>
      Qle_bool 0 q && Qle_bool q 14
      && Qle_bool (Qabs (q - pH_exact raw)%Q) pH_tolerance
  | None => false
  end.

End Sensor.

(* ================================================================== *)
(** * NumPy's [float64]: correctly rounded rational arithmetic *)
(* ================================================================== *)

(** The notebooks compute in IEEE 754 binary64.  A finite double is the
    rational it stands for; an operation returns the double nearest to the
    exact result, halves going to the neighbour with an even significand.
    Overflow is not modelled: the values of the notebooks stay below
    [2^17]. *)
Module Float64.

Local Open Scope Q_scope.

(** The nearest integer, halves going to the even neighbour ([np.rint]). *)
Definition rint (q : Q) : Z :=
  let f := Qfloor q in
  match Qcompare (q - inject_Z f) (1 # 2) with
  | Lt => f
  | Gt => (f + 1)%Z
  | Eq => if Z.even f then f else (f + 1)%Z
  end.

(** 53 bits of significand; [2^emin] is the least normal double. *)
Definition prec : Z := 53.
Definition emin : Z := -1022.

Definition pow2 (e : Z) : Q := 2 ^ e.

(** The exponent [e] with [2^e <= a < 2^(e+1)], for a positive [a]. *)
Definition ilog2 (a : Q) : Z :=
  let e := (Z.log2 (Qnum a) - Z.log2 (Z.pos (Qden a)))%Z in
  if Qle_bool (pow2 e) a then e else (e - 1)%Z.

(** The exponent of the spacing of the doubles around a positive [a]:
    52 below the exponent of [a], and never below that of the subnormal
    doubles. *)
Definition ulp_exponent (a : Q) : Z :=
  (Z.max (ilog2 a) emin - (prec - 1))%Z.

Definition round_pos (a : Q) : Q :=
  let u := pow2 (ulp_exponent a) in inject_Z (rint (a / u)) * u.

(** The double nearest to [a]. *)
Definition round64 (a : Q) : Q :=
  match Qcompare a 0 with
  | Eq => 0
  | Gt => round_pos a
  | Lt => - round_pos (- a)
  end.

Definition add64 (a b : Q) : Q := round64 (a + b).
Definition mul64 (a b : Q) : Q := round64 (a * b).
Definition div64 (a b : Q) : Q := round64 (a / b).

(** The same operations of [SpecFloat], for comparison: the rational value
    of a double, and whether a [SpecFloat] result is the given rational. *)
Definition of_int (z : Z) : spec_float := binary_normalize 53 1024 z 0 false.

Definition is_value (x : spec_float) (q : Q) : bool :=
  match Sensor.Q_of_float x with
  | Some q' => Qeq_bool q' q
  | None => false
  end.

End Float64.


(* ================================================================== *)
(** * The corpus notebook: synthetic per-species feature columns *)
(* ================================================================== *)

Module Synth.

Local Open Scope string_scope.
Local Open Scope Q_scope.

(** A Python [dict] with string keys, in insertion order. *)
Definition dict (V : Type) : Type := list (string * V).

(** [d[k]]; [None] stands for [KeyError]. *)
Fixpoint lookup {V} (d : dict V) (k : string) : option V :=
  match d with
  | [] => None
  | (k', v) :: rest => if String.eqb k' k then Some v else lookup rest k
  end.

(** [d[k] = v]: overwrite in place, or append a new key. *)
Fixpoint setitem {V} (d : dict V) (k : string) (v : V) : dict V :=
  match d with
  | [] => [(k, v)]
  | (k', v') :: rest =>
      if String.eqb k' k then (k', v) :: rest else (k', v') :: setitem rest k v
  end.

(** [{**d1, **d2}]. *)
Definition merge {V} (d1 d2 : dict V) : dict V :=
  fold_left (fun d kv => setitem d (fst kv) (snd kv)) d2 d1.

Definition n_per_class : nat := 2000.

Definition plant_classes : list string :=
  ["Mango"; "Neem"; "Jamun"; "Amla"; "Drumstick"].

Definition ranges : dict (Q * Q) :=
  [ ("AQI", (0, 500));
    ("CO2_Level_ppm", (350, 500));
    ("NO2_Level_ppm", (0, 50));
    ("PM2_5_ug_m3", (0, 200));
    ("PM10_ug_m3", (0, 300));
    ("pH_Level", (4.0, 9.0));
    ("Nitrogen_mg_kg", (0, 200));
    ("Phosphorus_mg_kg", (0, 100));
    ("Potassium_mg_kg", (0, 100));
    ("Moisture_Level_%", (0, 100));
    ("Organic_Matter_%", (0, 10));
    ("Plot_Area_m2", (10, 1000)) ].

Definition air_quality_means : dict Q :=
  [ ("AQI", 100); ("CO2_Level_ppm", 415); ("NO2_Level_ppm", 12);
    ("PM2_5_ug_m3", 54.4); ("PM10_ug_m3", 116) ].

Definition air_quality_std : dict Q :=
  [ ("AQI", 20); ("CO2_Level_ppm", 10); ("NO2_Level_ppm", 3);
    ("PM2_5_ug_m3", 5); ("PM10_ug_m3", 5) ].

Definition plant_params : dict (dict (Q * Q)) :=
  [ ("Mango",
      [ ("pH_Level", (6.8, 0.3)); ("Nitrogen_mg_kg", (100, 10));
        ("Phosphorus_mg_kg", (50, 5)); ("Potassium_mg_kg", (80, 5));
        ("Moisture_Level_%", (55, 5)); ("Organic_Matter_%", (3.0, 0.5));
        ("Plot_Area_m2", (500, 50)) ]);
    ("Neem",
      [ ("pH_Level", (7.0, 0.3)); ("Nitrogen_mg_kg", (70, 8));
        ("Phosphorus_mg_kg", (40, 5)); ("Potassium_mg_kg", (40, 5));
        ("Moisture_Level_%", (40, 5)); ("Organic_Matter_%", (2.0, 0.3));
        ("Plot_Area_m2", (300, 30)) ]);
    ("Jamun",
      [ ("pH_Level", (6.5, 0.3)); ("Nitrogen_mg_kg", (90, 8));
        ("Phosphorus_mg_kg", (60, 5)); ("Potassium_mg_kg", (60, 5));
        ("Moisture_Level_%", (60, 5)); ("Organic_Matter_%", (3.5, 0.5));
        ("Plot_Area_m2", (400, 40)) ]);
    ("Amla",
      [ ("pH_Level", (7.0, 0.3)); ("Nitrogen_mg_kg", (80, 8));
        ("Phosphorus_mg_kg", (55, 5)); ("Potassium_mg_kg", (65, 5));
        ("Moisture_Level_%", (50, 5)); ("Organic_Matter_%", (3.0, 0.5));
        ("Plot_Area_m2", (350, 40)) ]);
    ("Drumstick",
      [ ("pH_Level", (6.2, 0.3)); ("Nitrogen_mg_kg", (60, 8));
        ("Phosphorus_mg_kg", (45, 5)); ("Potassium_mg_kg", (55, 5));
        ("Moisture_Level_%", (45, 5)); ("Organic_Matter_%", (2.5, 0.5));
        ("Plot_Area_m2", (200, 20)) ]) ].

(** [np.clip(x, lo, hi)] is [minimum(maximum(x, lo), hi)]. *)
Definition clip (x lo hi : Q) : Q := Qmin (Qmax x lo) hi.

(** [x.round(2)] on a [float64] array: NumPy multiplies by [10.0**2],
    applies [rint] and divides by [10.0**2], each step in [float64]. *)
Definition round2 (x : Q) : Q :=
  Float64.div64 (inject_Z (Float64.rint (Float64.mul64 x 100))) 100.

Definition in_range (lo hi v : Q) : Prop := lo <= v /\ v <= hi.

(** The declared ranges are usable as they stand: both bounds are integers
    between 0 and 1000, in order. *)
Definition integralb (q : Q) : bool := Qeq_bool (inject_Z (Qfloor q)) q.

Definition range_okb (r : Q * Q) : bool :=
  Qle_bool 0 (fst r) && Qle_bool (fst r) (snd r) && Qle_bool (snd r) 1000
  && integralb (fst r) && integralb (snd r).

(** The notebook draws from NumPy's global generator.  The generator is a
    state of some type [RandomState]; [normal mean std size] consumes it and
    yields [size] draws, each a double given as the rational it stands
    for. *)
Section Generator.
Variable RandomState : Type.
Variable normal : Q -> Q -> nat -> RandomState -> list Q * RandomState.

(** Cells thread the generator state and may stop on an exception. *)
Definition G (A : Type) : Type := RandomState -> option (A * RandomState).

Definition gret {A} (a : A) : G A := fun s => Some (a, s).
Definition gbind {A B} (m : G A) (k : A -> G B) : G B :=
  fun s => match m s with
           | Some (a, s') => k a s'
           | None => None
           end.
Definition subscript {V} (d : dict V) (k : string) : G V :=
  fun s => match lookup d k with
           | Some v => Some (v, s)
           | None => None
           end.
(** [np.random.normal(mean, std, size)]; a negative [std] raises
    [ValueError]. *)
Definition draw (mean std : Q) (size : nat) : G (list Q) :=
  fun s => if Qle_bool 0 std then Some (normal mean std size s) else None.

Fixpoint traverse {A B} (f : A -> G B) (l : list A) : G (list B) :=
  match l with
  | [] => gret []
  | a :: rest =>
      gbind (f a) (fun b =>
      gbind (traverse f rest) (fun bs => gret (b :: bs)))
  end.

(** [generate_feature(mean, std, size, feature_name)]. *)
Definition generate_feature (mean std : Q) (size : nat)
           (feature_name : string) : G (list Q) :=
  gbind (draw mean std size) (fun samples =>
  gbind (subscript ranges feature_name) (fun '(min_val, max_val) =>
  gret (List.map (fun x => round2 (clip x min_val max_val)) samples))).

(** One data frame of [data_list]: the feature columns in insertion order
    and the constant [Plant_Type] column. *)
Record DataFrame := mkDataFrame {
  columns : dict (list Q);
  Plant_Type : string
}.

(** The body of [for plant in plant_classes]. *)
Definition frame_for (plant : string) : G DataFrame :=
  gbind (traverse (fun '(feat, mean) =>
           gbind (subscript air_quality_std feat) (fun std =>
           gbind (generate_feature mean std n_per_class feat) (fun col =>
           gret (feat, col))))
         air_quality_means) (fun aq_features =>
  gbind (subscript plant_params plant) (fun params =>
  gbind (traverse (fun '(feat, (mean, std)) =>
           gbind (generate_feature mean std n_per_class feat) (fun col =>
           gret (feat, col)))
         params) (fun soil_features =>
  gret (mkDataFrame (merge aq_features soil_features) plant)))).

(** [data_list] after the loop. *)
Definition data_list : G (list DataFrame) := traverse frame_for plant_classes.
End Generator.

(** A generator that always draws [mean - 9 std], [mean], [mean + std/7] and
    [mean + 9 std], counting its calls. *)
Definition sample_draws (mean std : Q) (size : nat) (s : nat)
  : list Q * nat :=
  ([mean - 9 * std; mean; mean + std / 7; mean + 9 * std], S s).

End Synth.

(* ================================================================== *)
(** * The training notebook: encoder, scaler and grid search *)
(* ================================================================== *)

Module Training.

(** [LabelEncoder], [StandardScaler] and [GridSearchCV] are scikit-learn's.
    Each definition below follows the code path of the library that the
    notebook's call reaches, on lists instead of arrays. *)

(** ** [LabelEncoder] *)

Local Open Scope string_scope.

(** Python orders strings by code point, character by character. *)
Definition str_lt (a b : string) : Prop := String.compare a b = Lt.

(** [np.unique(y)]: the distinct entries of [y] in ascending order. *)
Fixpoint insert (s : string) (l : list string) : list string :=
  match l with
  | [] => [s]
  | h :: t =>
      match String.compare s h with
      | Lt => s :: l
      | Eq => l
      | Gt => h :: insert s t
      end
  end.

Definition unique (y : list string) : list string := fold_right insert [] y.

Record LabelEncoder := mkLabelEncoder { classes_ : list string }.

(** [le.fit(y)] stores [np.unique(y)]. *)
Definition fit (y : list string) : LabelEncoder := mkLabelEncoder (unique y).

Fixpoint index_of (s : string) (l : list string) : option nat :=
  match l with
  | [] => None
  | h :: t =>
      if String.eqb h s then Some O
      else match index_of s t with
           | Some i => Some (S i)
           | None => None
           end
  end.

(** [le.transform([label])]: the position of the label in [classes_];
    [None] stands for the [ValueError] raised on an unseen label. *)
Definition encode (le : LabelEncoder) (label : string) : option nat :=
  index_of label (classes_ le).

Fixpoint transform (le : LabelEncoder) (y : list string) : option (list nat) :=
  match y with
  | [] => Some []
  | l :: rest =>
      match encode le l, transform le rest with
      | Some i, Some codes => Some (i :: codes)
      | _, _ => None
      end
  end.

(** [y_encoded = le.fit_transform(y)]. *)
Definition fit_transform (y : list string) : LabelEncoder * option (list nat) :=
  let le := fit y in (le, transform le y).

(** [le.inverse_transform([i])]. *)
Definition decode (le : LabelEncoder) (i : nat) : option string :=
  nth_error (classes_ le) i.

(** The order the specification speaks of: the distinct labels of the corpus
    in order of first appearance, and the rank of a label in it. *)
Fixpoint first_occurrence_order (y : list string) : list string :=
  match y with
  | [] => []
  | l :: rest =>
      l :: List.filter (fun m => negb (String.eqb m l)) (first_occurrence_order rest)
  end.

Definition first_occurrence_rank (y : list string) (label : string) : option nat :=
  index_of label (first_occurrence_order y).

(** The number of distinct labels of the corpus that sort before [label]. *)
Definition sorted_rank (y : list string) (label : string) : nat :=
  List.length (List.filter (fun m => String.ltb m label) (nodup string_dec y)).

(** The corpus as the notebook's own output shows it: the first five rows
    are Amla, Jamun, Mango, Jamun, Jamun; the other two species follow. *)
Definition corpus_head : list string :=
  ["Amla"; "Jamun"; "Mango"; "Jamun"; "Jamun"; "Neem"; "Drumstick"].

(** ** [StandardScaler], over the real numbers *)

Local Open Scope R_scope.

(** A table is given by its rows.  The notebook passes two-dimensional
    arrays, whose rows all have the same length; the definitions below are
    meant for such tables, and for rows with as many entries as the scaler
    was fitted on. *)

(** Column [j] of a table given by rows. *)
Definition column (j : nat) (X : list (list R)) : list R :=
  List.map (fun row => nth j row 0) X.

Definition sum (c : list R) : R := fold_right Rplus 0 c.

(** [np.mean] and [np.var] (population variance) of a column. *)
Definition mean (c : list R) : R := sum c / INR (List.length c).
Definition var (c : list R) : R :=
  mean (List.map (fun x => (x - mean c) * (x - mean c)) c).
Definition std (c : list R) : R := sqrt (var c).

(** [np.finfo(np.float64).eps]. *)
Definition eps : R := / 2 ^ 52.

(** [_is_constant_feature(var, mean, n_samples)]: the variance is zero, or
    so small that it may be the rounding error of its computation. *)
Definition is_constant_feature (var mean : R) (n_samples : nat) : bool :=
  let upper_bound :=
    INR n_samples * eps * var + (INR n_samples * mean * eps) ^ 2 in
  if Rle_dec var upper_bound then true else false.

(** [_handle_zeros_in_scale(scale, constant_mask)]: the scale of a constant
    feature is replaced by one. *)
Definition handle_zeros_in_scale (scale : R) (constant_mask : bool) : R :=
  if constant_mask then 1 else scale.

Record StandardScaler := mkStandardScaler {
  mean_ : list R;
  var_ : list R;
  scale_ : list R
}.

(** The result of a call that may raise; the only exception of the fitting
    path is the [ValueError] on a table without rows or without columns. *)
Inductive outcome (A : Type) : Type :=
| Ok (a : A)
| ValueError.
Arguments Ok {A} a.
Arguments ValueError {A}.

(** [scaler.fit(X)]. *)
Definition scaler_fit (X : list (list R)) : outcome StandardScaler :=
  match X with
  | [] => ValueError
  | [] :: _ => ValueError
  | row0 :: _ =>
      let js := seq 0 (List.length row0) in
      Ok (mkStandardScaler
            (List.map (fun j => mean (column j X)) js)
            (List.map (fun j => var (column j X)) js)
            (List.map (fun j =>
               handle_zeros_in_scale (std (column j X))
                 (is_constant_feature (var (column j X)) (mean (column j X))
                                      (List.length X))) js))
  end.

(** [scaler.transform(X)]: subtract the fitted mean and divide by the fitted
    scale, feature by feature. *)
Definition transform_row (sc : StandardScaler) (row : list R) : list R :=
  List.map (fun j => (nth j row 0 - nth j (mean_ sc) 0) / nth j (scale_ sc) 1)
           (seq 0 (List.length row)).

Definition scaler_transform (sc : StandardScaler) (X : list (list R))
  : list (list R) :=
  List.map (transform_row sc) X.

(** [X_scaled = scaler.fit_transform(X)]. *)
Definition scaler_fit_transform (X : list (list R))
  : outcome (StandardScaler * list (list R)) :=
  match scaler_fit X with
  | Ok sc => Ok (sc, scaler_transform sc X)
  | ValueError => ValueError
  end.

(** A table with one constant feature (5, 5) and one that varies (0, 4). *)
Definition degenerate_table : list (list R) := [[5; 0]; [5; 4]].

(** A table whose only feature varies by two units in the last place of a
    [float64]: 1.0 and 1.0000000000000004. *)
Definition near_constant_table : list (list R) := [[1]; [1 + 2 * eps]].

(** ** [GridSearchCV] *)

Local Open Scope Q_scope.

Inductive Weights := uniform | distance.

(** [param_grid]. *)
Definition n_neighbors : list Z := [3; 5; 7; 9; 11]%Z.
Definition weights : list Weights := [uniform; distance].

(** [ParameterGrid(param_grid)]: keys in sorted order ([n_neighbors] before
    [weights]), the last key varying fastest. *)
Definition ParameterGrid : list (Z * Weights) := list_prod n_neighbors weights.

(** [cv=5]. *)
Definition cv : nat := 5.

Definition Qltb (a b : Q) : bool := negb (Qle_bool b a).

(** [np.argmin]: the first index of the least entry. *)
Fixpoint argmin_from (l : list nat) (i bi bv : nat) : nat :=
  match l with
  | [] => bi
  | x :: t =>
      if Nat.ltb x bv then argmin_from t (S i) i x
      else argmin_from t (S i) bi bv
  end.

Definition argmin (l : list nat) : nat :=
  match l with
  | [] => O
  | x :: t => argmin_from t 1 0 x
  end.

(** [rankdata(-means, method="min")]: one more than the number of strictly
    larger means. *)
Definition rank_test_score (means : list Q) : list nat :=
  List.map (fun m => S (List.length (List.filter (fun m' => Qltb m m') means)))
           means.

Section Search.
(** [accuracy p i]: the accuracy, on held-out fold [i] of the training
    split, of the classifier with parameters [p] fitted on the other folds
    ([scoring='accuracy']); a [float64], given as the rational it stands
    for. *)
Variable accuracy : Z * Weights -> nat -> Q.

(** [mean_test_score]: [np.mean] over the [float64] scores of the folds,
    which adds them from left to right, starting from zero, and divides the
    sum by their number, every operation rounding to [float64]. *)
Definition mean_test_score (p : Z * Weights) : Q :=
  Float64.div64
    (fold_left Float64.add64 (List.map (accuracy p) (seq 0 cv)) 0)
    (inject_Z (Z.of_nat cv)).

Definition best_index_ : nat :=
  argmin (rank_test_score (List.map mean_test_score ParameterGrid)).

(** [grid_search.best_params_]. *)
Definition best_params_ : Z * Weights :=
  nth best_index_ ParameterGrid (0%Z, uniform).
End Search.

(** Fold accuracies for which two candidates score the same five values in
    a different order: out of 1600 validation samples per fold, [(3,
    uniform)] and [(11, distance)] classify 1599, 1473, 1515, 1496 and 1591
    correctly, fold by fold in the orders below; every other candidate
    classifies 1400. *)
Definition correct_of_1600 (p : Z * Weights) (i : nat) : Z :=
  match p with
  | (3, uniform) => nth i [1599; 1473; 1515; 1496; 1591] 0
  | (11, distance) => nth i [1599; 1515; 1591; 1473; 1496] 0
  | _ => 1400
  end%Z.

Definition permuted_folds (p : Z * Weights) (i : nat) : Q :=
  Float64.div64 (inject_Z (correct_of_1600 p i)) 1600.

(** The order in which ties are resolved: a smaller neighbour count first,
    then [uniform] before [distance]. *)
Definition prefers (a b : Z * Weights) : bool :=
  (fst a <? fst b)%Z
  || ((fst a =? fst b)%Z
      && match snd a, snd b with
         | uniform, _ => true
         | distance, distance => true
         | distance, uniform => false
         end).

End Training.

(* ================================================================== *)
(** * The sketch: one polling cycle *)
(* ================================================================== *)

Module Acquisition.

Import Sensor.
Local Open Scope Z_scope.

(** What the sketch hands to [Serial], in order: a string literal, a [byte]
    or an [int] printed in decimal, a [float] printed with a number of
    decimals, the line end of [println]. *)
Inductive Printed :=
| PrintStr (s : string)
| PrintByte (v : Z)
| PrintInt (v : Z)
| PrintFloat (x : spec_float) (digits : Z)
| NewLine.

(** What the outside world does during one pass of [loop]: for each of the
    three queries the count its write returns and the bytes the probe has put
    into the receive buffer by the time the sketch reads, and the two samples
    [analogRead] returns. *)
Record Cycle := mkCycle {
  acceptedN : Z;  deliveredN : list Z;
  acceptedP : Z;  deliveredP : list Z;
  acceptedK : Z;  deliveredK : list Z;
  sensorValue1 : Z;
  sensorValue2 : Z
}.

(** The three calls of a cycle, in program order. *)
Definition calls_of (env : Cycle) : list Call :=
  [mkCall Nitrogen (acceptedN env) (deliveredN env);
   mkCall Phosphorus (acceptedP env) (deliveredP env);
   mkCall Potassium (acceptedK env) (deliveredK env)].

(** The fifteen [Serial.print]/[println] statements of [loop]. *)
Definition report (val1 val2 val3 : Z) (pHValue : spec_float)
           (moisturePercent : Z) : list Printed :=
  [PrintStr "Nitrogen: "; PrintByte val1; PrintStr " mg/kg"; NewLine;
   PrintStr "Phosphorous: "; PrintByte val2; PrintStr " mg/kg"; NewLine;
   PrintStr "Potassium: "; PrintByte val3; PrintStr " mg/kg"; NewLine;
   PrintStr "pH: "; PrintFloat pHValue 2; NewLine;
   PrintStr "Soil moisture: "; PrintInt moisturePercent; PrintStr "%";
   NewLine].

(** [void loop()]; [fmt] is the format of [double] (see [Sensor.pHValue]).
    The value of the action is what the pass printed. *)
Definition loop (fmt : Z * Z) (env : Cycle) : M (list Printed) :=
  val1 <- call (mkCall Nitrogen (acceptedN env) (deliveredN env)) ;;
  delay 250 ;;;
  val2 <- call (mkCall Phosphorus (acceptedP env) (deliveredP env)) ;;
  delay 250 ;;;
  val3 <- call (mkCall Potassium (acceptedK env) (deliveredK env)) ;;
  delay 250 ;;;
  printed <- ret (report val1 val2 val3
                    (pHValue fmt (sensorValue1 env))
                    (moisturePercent (sensorValue2 env))) ;;
  delay 2000 ;;;
  ret printed.

(** [void setup()].  [Serial.begin], [mod.begin] and the four [pinMode]
    calls change nothing the board record holds (pin levels, buffer, receive
    queue), so only the closing [delay(500)] is visible. *)
Definition setup : M unit := delay 500.

(** The first passes of the endless repetition of [loop], one per element of
    [envs]; the value is what each pass printed. *)
Fixpoint passes (fmt : Z * Z) (envs : list Cycle) : M (list (list Printed)) :=
  match envs with
  | [] => ret []
  | env :: rest =>
      printed <- loop fmt env ;;
      more <- passes fmt rest ;;
      ret (printed :: more)
  end.

(** The sketch from power-on: [setup], then [loop] again and again. *)
Definition sketch (fmt : Z * Z) (envs : list Cycle)
  : list (list Printed) * Board :=
  (setup ;;; passes fmt envs) power_on.

(** The milliseconds of [delay] in a log, and the frames written in it. *)
Fixpoint elapsed (t : list Event) : Z :=
  match t with
  | [] => 0
  | Delay ms :: r => ms + elapsed r
  | _ :: r => elapsed r
  end.

Fixpoint requests (t : list Event) : list (list Z) :=
  match t with
  | [] => []
  | ModWrite buf _ _ :: r => buf :: requests r
  | _ :: r => requests r
  end.

(** The pH of a raw sample as a rational, [0] when the float is not finite. *)
Definition pH_rational (fmt : Z * Z) (raw : Z) : Q :=
  match Q_of_float (pHValue fmt raw) with
  | Some q => q
  | None => 0%Q
  end.

(** The pH of [raw] and of [raw + 1] are finite and the first is smaller. *)
Definition pH_step_checked (fmt : Z * Z) (raw : Z) : bool :=
  match Q_of_float (pHValue fmt raw), Q_of_float (pHValue fmt (raw + 1)) with
  | Some q, Some q' => negb (Qle_bool q' q)
  | _, _ => false
  end.

(** The buffer as every run from power-on leaves it: eleven bytes, the last
    four still zero. *)
Definition buffer_ok (vals : list Z) : Prop :=
  List.length vals = 11%nat /\ Forall is_byte vals /\ skipn 7 vals = [0; 0; 0; 0].

(** Two boards that differ at most in their logs. *)
Definition same_bus (b b' : Board) : Prop :=
  values b = values b' /\ rx b = rx b' /\
  pinRE b = pinRE b' /\ pinDE b = pinDE b'.

End Acquisition.

(** Generators used to exercise the corpus notebook. *)
Module Fixtures.

(** A generator that answers every request for [size] draws with [size]
    copies of the mean, counting its calls. *)
Definition constant_draws (mean std : Q) (size : nat) (s : nat)
  : list Q * nat :=
  (repeat mean size, S s).

(** The twelve column names of a frame, in the order the loop creates them. *)
Definition feature_names : list string :=
  ["AQI"; "CO2_Level_ppm"; "NO2_Level_ppm"; "PM2_5_ug_m3"; "PM10_ug_m3";
   "pH_Level"; "Nitrogen_mg_kg"; "Phosphorus_mg_kg"; "Potassium_mg_kg";
   "Moisture_Level_%"; "Organic_Matter_%"; "Plot_Area_m2"]%string.

(** What [generate_feature] makes of one draw [x] for a feature with range
    [lo, hi]: the result lies in the range; a draw outside the range becomes
    the bound it passed; a draw inside moves by at most half a hundredth, up
    to the rounding of the three [float64] operations; and the result is the
    double nearest to a whole number of hundredths. *)
Definition clamped_and_rounded (lo hi x v : Q) : Prop :=
  (lo <= v /\ v <= hi /\
   (x <= lo -> v == lo) /\
   (hi <= x -> v == hi) /\
   (lo <= x -> x <= hi -> Qabs (v - x) <= (1 # 200) + Float64.pow2 (-42)) /\
   exists k : Z,
     v = Float64.round64 (inject_Z k / 100) /\
     Qabs (v - inject_Z k / 100) <= Float64.pow2 (-44))%Q.

(** The parameters of the draw behind the column [feat] of the frame of
    [plant]: the shared air-quality tables, or the soil table of the
    species. *)
Definition drawn_with (plant feat : string) (mean std : Q) : Prop :=
  (Synth.lookup Synth.air_quality_means feat = Some mean /\
   Synth.lookup Synth.air_quality_std feat = Some std) \/
  (exists params,
     Synth.lookup Synth.plant_params plant = Some params /\
     Synth.lookup params feat = Some (mean, std)).

End Fixtures.

(* ================================================================== *)
(** * Properties of the sketch *)
(* ================================================================== *)

Section SensorFacts.

Import Sensor.
Local Open Scope Z_scope.

Lemma reads_length n : forall q, List.length (reads n q) = n.
Proof.
  induction n as [|n IH]; intros q; simpl; [reflexivity|].
  destruct q; simpl; now rewrite IH.
Qed.

Lemma reads_nth n : forall q i, (i < n)%nat -> nth i (reads n q) (-1) = nth i q (-1).
Proof.
  induction n as [|n IH]; intros q i Hi; [lia|].
  destruct q as [|x r]; destruct i as [|i]; simpl; try reflexivity.
  - rewrite IH by lia. now destruct i.
  - apply IH; lia.
Qed.

Lemma reads_short n : forall q,
  (List.length q <= n)%nat -> reads n q = q ++ repeat (-1) (n - List.length q).
Proof.
  induction n as [|n IH]; intros q Hq.
  - destruct q; [reflexivity | simpl in Hq; lia].
  - destruct q as [|x r]; simpl.
    + f_equal. rewrite (IH []) by (simpl; lia). simpl. now rewrite Nat.sub_0_r.
    + f_equal. apply IH. simpl in Hq. lia.
Qed.

Lemma reads_full n : forall q rest,
  List.length q = n -> reads n (q ++ rest) = q.
Proof.
  induction n as [|n IH]; intros q rest Hq.
  - now destruct q.
  - destruct q as [|x r]; [discriminate|]. simpl. f_equal. apply IH.
    simpl in Hq. lia.
Qed.

Lemma store_length a : forall i v, List.length (store a i v) = List.length a.
Proof.
  induction a as [|h t IH]; intros [|i] v; simpl; auto.
Qed.

Lemma store_nth a : forall i j v d,
  (i < List.length a)%nat ->
  nth j (store a i v) d = if Nat.eqb j i then v else nth j a d.
Proof.
  induction a as [|h t IH]; intros i j v d Hi; simpl in Hi; [lia|].
  destruct i as [|i], j as [|j]; simpl; try reflexivity.
  apply IH; lia.
Qed.

Lemma store_from_length l : forall a k,
  List.length (store_from a k l) = List.length a.
Proof.
  induction l as [|v t IH]; intros a k; simpl; [reflexivity|].
  now rewrite IH, store_length.
Qed.

Lemma store_from_nth l : forall a k j d,
  (k + List.length l <= List.length a)%nat ->
  nth j (store_from a k l) d =
  if (Nat.leb k j && Nat.ltb j (k + List.length l))%bool
  then nth (j - k) l d else nth j a d.
Proof.
  induction l as [|v t IH]; intros a k j d Hk; simpl in *.
  - rewrite Nat.add_0_r.
    destruct (Nat.leb_spec k j), (Nat.ltb_spec j k); simpl; try reflexivity; lia.
  - rewrite IH by (rewrite store_length; lia).
    rewrite store_nth by lia.
    destruct (Nat.leb_spec (S k) j), (Nat.ltb_spec j (S k + List.length t)),
             (Nat.leb_spec k j), (Nat.ltb_spec j (k + S (List.length t))),
             (Nat.eqb_spec j k); simpl; try lia; try reflexivity.
    + destruct (j - k)%nat as [|m] eqn:E; [lia|].
      replace (j - S k)%nat with m by lia. reflexivity.
    + subst j. now rewrite Nat.sub_diag.
Qed.

(** One iteration of the read loop. *)
Lemma read_one i b :
  (v <- mod_read ;; set_values i (byte_of_int v)) b =
  (tt, mkBoard (store (values b) (Z.to_nat i) (byte_of_int (hd (-1) (rx b))))
               (pinRE b) (pinDE b) (tl (rx b))
               (trace b ++ [ModRead (hd (-1) (rx b))])).
Proof.
  destruct b as [vs re de q t]. unfold bind, mod_read, set_values, emit.
  destruct q; reflexivity.
Qed.

(** The read loop in closed form. *)
Lemma for_byte_reads n : forall k b,
  for_byte n (Z.of_nat k)
    (fun i => v <- mod_read ;; set_values i (byte_of_int v)) b =
  (tt, mkBoard (store_from (values b) k (List.map byte_of_int (reads n (rx b))))
               (pinRE b) (pinDE b) (skipn n (rx b))
               (trace b ++ List.map ModRead (reads n (rx b)))).
Proof.
  induction n as [|n IH]; intros k b.
  - destruct b; simpl. unfold ret. now rewrite app_nil_r.
  - cbn [for_byte]. unfold bind at 1. rewrite read_one.
    replace (Z.of_nat k + 1) with (Z.of_nat (S k)) by lia.
    rewrite IH. rewrite Nat2Z.id.
    destruct b as [vs re de q t]; destruct q as [|x r]; simpl;
      rewrite <- app_assoc, ?skipn_nil; reflexivity.
Qed.

(** Every query in closed form. *)
Lemma query_closed n sent b :
  query n sent b =
  if sent =? 8 then
    let got := reads 7 (rx b) in
    let vals := store_from (values b) 0 (List.map byte_of_int got) in
    (nth 4 vals 0,
     mkBoard vals LOW LOW (skipn 7 (rx b))
             (trace (after_request n sent b)
                ++ [DigitalWrite DE LOW; DigitalWrite RE LOW]
                ++ List.map ModRead got))
  else (nth 4 (values b) 0, after_request n sent b).
Proof.
  destruct b as [vs re de q t].
  destruct n; unfold query, nitrogen, phosphorous, potassium;
    remember (for_byte 7 0 _) as loop eqn:Hloop;
    unfold bind, digitalWrite, delay, mod_write, emit, after_request,
           get_values, ret; simpl;
    (destruct (sent =? 8); simpl;
     [ subst loop; rewrite (for_byte_reads 7 0); simpl;
       repeat rewrite <- app_assoc; reflexivity
     | repeat rewrite <- app_assoc; reflexivity ]).
Qed.

Lemma byte_of_int_id v : is_byte v -> byte_of_int v = v.
Proof. unfold is_byte, byte_of_int. intros H. now apply Z.mod_small. Qed.

(** The sketch on concrete buses. *)
Example byte_of_int_minus_one : byte_of_int (-1) = 255.
Proof. reflexivity. Qed.

Example nitrogen_reads_42 :
  query Nitrogen 8 (deliver [1; 3; 2; 0; 42; 0x38; 0x5b] power_on) =
  (42, mkBoard [1; 3; 2; 0; 42; 0x38; 0x5b; 0; 0; 0; 0] LOW LOW []
         [DigitalWrite DE HIGH; DigitalWrite RE HIGH; Delay 10;
          ModWrite nitro 8 8; DigitalWrite DE LOW; DigitalWrite RE LOW;
          ModRead 1; ModRead 3; ModRead 2; ModRead 0; ModRead 42;
          ModRead 0x38; ModRead 0x5b]).
Proof. reflexivity. Qed.

Example potassium_write_refused :
  query Potassium 0 power_on =
  (0, mkBoard (repeat 0 11) HIGH HIGH []
        [DigitalWrite DE HIGH; DigitalWrite RE HIGH; Delay 10;
         ModWrite pota 8 0]).
Proof. reflexivity. Qed.

Example crc16_of_frames :
  List.map (fun f => crc16 (firstn 6 f)) [nitro; phos; pota] =
  [0x0CE4; 0xCCB5; 0xC085].
Proof. reflexivity. Qed.

Example moisture_samples :
  List.map moisturePercent [0; 1; 10; 11; 511; 512; 1022; 1023] =
  [0; 0; 0; 1; 49; 50; 99; 100].
Proof. reflexivity. Qed.

Example pH_at_full_scale :
  pHValue binary32 1023 = S754_finite false 14680064 (-20) /\
  pHValue binary64 1023 = S754_finite false 14680064 (-20) /\
  Q_of_float (S754_finite false 14680064 (-20)) = Some (14680064 # 1048576)%Q.
Proof. repeat split; reflexivity. Qed.

(** What a query whose request went out in full answers: the fifth byte
    read, kept to eight bits. *)
Lemma answer_closed n b :
  List.length (values b) = 11%nat ->
  fst (query n 8 b) = byte_of_int (nth 4 (rx b) (-1)).
Proof.
  intros Hlen. rewrite query_closed. cbn [Z.eqb Pos.eqb fst].
  rewrite store_from_nth
    by (rewrite length_map, reads_length, Hlen; simpl; lia).
  rewrite length_map, reads_length. cbn [Nat.leb Nat.ltb Nat.add andb Nat.sub].
  rewrite (nth_indep _ 0 (byte_of_int (-1)))
    by (rewrite length_map, reads_length; lia).
  rewrite map_nth. f_equal. apply reads_nth. lia.
Qed.

Lemma store_from_zero l a :
  (List.length l <= List.length a)%nat ->
  store_from a 0 l = l ++ skipn (List.length l) a.
Proof.
  intros Hl. apply (nth_ext _ _ 0 0).
  - rewrite store_from_length, length_app, length_skipn. lia.
  - intros j Hj. rewrite store_from_nth by (simpl; lia). simpl.
    rewrite Nat.sub_0_r.
    destruct (Nat.ltb_spec j (List.length l)).
    + now rewrite app_nth1.
    + rewrite app_nth2, nth_skipn by lia. f_equal. lia.
Qed.

(** The history invariant behind the stale answers: the byte at index 4 of
    the buffer is the answer of the latest fully accepted call. *)
Lemma run_tracks_last_accepted cs : forall b,
  nth 4 (values (snd (run cs b))) 0 =
  last_accepted cs (fst (run cs b)) (nth 4 (values b) 0).
Proof.
  induction cs as [|c rest IH]; intros b; [reflexivity|].
  cbn [run]. destruct (call c b) as [v b1] eqn:Ec.
  specialize (IH b1). destruct (run rest b1) as [vs b2].
  cbn [fst snd last_accepted] in *. rewrite IH. f_equal.
  unfold call in Ec. rewrite query_closed in Ec.
  destruct (accepted c =? 8); inversion Ec; subst; reflexivity.
Qed.

(** C1, as stated, fails: the nitrogen query reads 42; the port then accepts
    only 3 of the 8 request bytes of the phosphorus query, and that query
    answers 42, the stale nitrogen reading, which is also what a phosphorus
    query answers when the probe really reports 42. *)
Lemma stale_reading_on_failed_write :
  fst (call (mkCall Nitrogen 8 [1; 3; 2; 0; 42; 0x38; 0x5b]) power_on) = 42 /\
  nth 4 (values after_reading_42) 0 = 42 /\
  3 <> 8 /\
  fst (call (mkCall Phosphorus 3 []) after_reading_42) = 42 /\
  fst (call (mkCall Phosphorus 8 [1; 3; 2; 0; 42; 0x38; 0x5b]) power_on) = 42.
Proof. repeat split; try reflexivity. discriminate. Qed.

(** C1, amended: when [mod.write] does not return 8, the query reads
    nothing, leaves the buffer and the receive queue as they were, and
    answers the byte already stored at index 4 of the shared buffer. *)
Theorem failed_write_returns_stored_byte n sent b :
  sent <> 8 ->
  fst (query n sent b) = nth 4 (values b) 0 /\
  values (snd (query n sent b)) = values b /\
  rx (snd (query n sent b)) = rx b /\
  trace (snd (query n sent b)) =
    trace b ++ [DigitalWrite DE HIGH; DigitalWrite RE HIGH; Delay 10;
                ModWrite (frame_of n) 8 sent].
Proof.
  intros Hs. rewrite query_closed.
  destruct (Z.eqb_spec sent 8) as [E|_]; [contradiction|].
  repeat split; reflexivity.
Qed.

Lemma failed_write_returns_stored_byte_witness :
  3 <> 8 /\
  fst (query Phosphorus 3 after_reading_42) = 42.
Proof.
  split; [discriminate|].
  exact (proj1 (failed_write_returns_stored_byte Phosphorus 3 after_reading_42
                  ltac:(discriminate))).
Defined.

(** C2: the events of a query are the two pins raised, the 10 ms pause and
    the write of the 8-byte frame; the pins are lowered and the seven reads
    are made after that write, and only when it returned 8.  No receive
    event occurs otherwise. *)
Theorem read_phase_only_after_full_write n sent b :
  trace (snd (query n sent b)) =
    trace b
    ++ [DigitalWrite DE HIGH; DigitalWrite RE HIGH; Delay 10;
        ModWrite (frame_of n) (sizeof (frame_of n)) sent]
    ++ (if sent =? 8
        then [DigitalWrite DE LOW; DigitalWrite RE LOW]
               ++ List.map ModRead (reads 7 (rx b))
        else [])
  /\ existsb is_receive_event
       (skipn (List.length (trace b)) (trace (snd (query n sent b))))
     = (sent =? 8)
  /\ sizeof (frame_of n) = 8.
Proof.
  assert (Hsz : sizeof (frame_of n) = 8) by (destruct n; reflexivity).
  rewrite Hsz, query_closed.
  destruct (sent =? 8); cbn [snd trace after_request];
    (split; [|split; [|reflexivity]]).
  - now rewrite <- app_assoc.
  - rewrite <- app_assoc, skipn_app, skipn_all, Nat.sub_diag. reflexivity.
  - now rewrite app_nil_r.
  - rewrite skipn_app, skipn_all, Nat.sub_diag. reflexivity.
Qed.

(** C3, as stated, fails: with only five response bytes received the
    nitrogen query answers 42, a value taken from the partial response; with
    none received it answers 255, the same byte a complete response whose
    fifth byte is 255 produces. *)
Lemma short_response_yields_a_reading :
  fst (call (mkCall Nitrogen 8 [1; 3; 2; 0; 42]) power_on) = 42 /\
  values (snd (call (mkCall Nitrogen 8 [1; 3; 2; 0; 42]) power_on))
    = [1; 3; 2; 0; 42; 255; 255; 0; 0; 0; 0] /\
  fst (call (mkCall Nitrogen 8 []) power_on) = 255 /\
  fst (call (mkCall Nitrogen 8 [1; 3; 2; 0; 255; 0x79; 0xc4]) power_on) = 255.
Proof. repeat split; reflexivity. Qed.

(** C3, amended: when fewer than seven response bytes are waiting, every
    missing byte is stored as 255 (the [-1] of the empty read, kept to eight
    bits) and the query answers an ordinary byte: the fifth received byte
    when at least five arrived, 255 otherwise. *)
Theorem short_response_answer n b :
  List.length (values b) = 11%nat ->
  Forall is_byte (rx b) ->
  (List.length (rx b) < 7)%nat ->
  fst (query n 8 b) = nth 4 (rx b) 255 /\
  values (snd (query n 8 b)) =
    rx b ++ repeat 255 (7 - List.length (rx b)) ++ skipn 7 (values b) /\
  rx (snd (query n 8 b)) = [].
Proof.
  intros Hlen Hb Hshort. split; [|split].
  - rewrite answer_closed by assumption.
    destruct (Nat.ltb_spec 4 (List.length (rx b))) as [H4|H4].
    + rewrite (nth_indep _ 255 (-1)) by assumption.
      apply byte_of_int_id. rewrite Forall_forall in Hb. apply Hb.
      now apply nth_In.
    + now rewrite !nth_overflow by assumption.
  - rewrite query_closed. cbn [Z.eqb Pos.eqb snd values].
    rewrite store_from_zero
      by (rewrite length_map, reads_length, Hlen; lia).
    rewrite length_map, reads_length, reads_short by lia.
    rewrite map_app, map_repeat, <- app_assoc. f_equal.
    clear - Hb. induction Hb as [|x l Hx _ IH]; [reflexivity|].
    simpl. now rewrite IH, byte_of_int_id.
  - rewrite query_closed. cbn [Z.eqb Pos.eqb snd rx].
    apply skipn_all2. lia.
Qed.

Lemma short_response_answer_witness :
  Nat.lt (List.length (rx (deliver [1; 3; 2] power_on))) 7 /\
  fst (query Potassium 8 (deliver [1; 3; 2] power_on)) = 255.
Proof.
  split; [unfold Nat.lt; simpl; lia|].
  exact (proj1 (short_response_answer Potassium (deliver [1; 3; 2] power_on)
                  eq_refl
                  ltac:(repeat constructor; unfold is_byte; lia)
                  ltac:(simpl; lia))).
Defined.

(** C4: each request frame is the 8-byte Modbus read of one holding
    register, at address 0x001E, 0x001F or 0x0020, closed by its CRC low
    byte first; and when the request went out in full and the seven response
    bytes are waiting, the query answers the byte at offset 4 of the
    response. *)
Theorem frames_and_reading_offset n b resp rest :
  List.length (values b) = 11%nat ->
  rx b = resp ++ rest ->
  List.length resp = 7%nat ->
  Forall is_byte resp ->
  frame_of n =
    [0x01; 0x03; register n / 256; register n mod 256; 0x00; 0x01;
     crc16 [0x01; 0x03; register n / 256; register n mod 256; 0x00; 0x01]
       mod 256;
     crc16 [0x01; 0x03; register n / 256; register n mod 256; 0x00; 0x01]
       / 256] /\
  List.map register [Nitrogen; Phosphorus; Potassium] = [0x001E; 0x001F; 0x0020] /\
  fst (query n 8 b) = nth 4 resp 0 /\
  rx (snd (query n 8 b)) = rest.
Proof.
  intros Hlen Hrx H7 Hb. split; [|split; [|split]].
  - destruct n; vm_compute; reflexivity.
  - reflexivity.
  - rewrite answer_closed, Hrx by assumption.
    rewrite app_nth1, (nth_indep _ (-1) 0) by lia.
    apply byte_of_int_id. rewrite Forall_forall in Hb. apply Hb.
    apply nth_In. lia.
  - rewrite query_closed. cbn [Z.eqb Pos.eqb snd rx]. rewrite Hrx.
    rewrite skipn_app, skipn_all2, H7, Nat.sub_diag by lia. reflexivity.
Qed.

Lemma frames_and_reading_offset_witness :
  fst (query Nitrogen 8 (deliver [1; 3; 2; 0; 42; 0x38; 0x5b] power_on)) = 42.
Proof.
  exact (proj1 (proj2 (proj2
    (frames_and_reading_offset Nitrogen
       (deliver [1; 3; 2; 0; 42; 0x38; 0x5b] power_on)
       [1; 3; 2; 0; 42; 0x38; 0x5b] []
       eq_refl eq_refl eq_refl
       ltac:(repeat constructor; unfold is_byte; lia))))).
Defined.

(** C10: the buffer starts zero-filled; every query answers the byte at
    index 4 of the buffer it leaves behind and leaves the buffer untouched
    unless its write returned 8; hence, after any history of calls from
    power-on, a call whose write fails answers what the latest fully
    accepted call of any nutrient answered, and 0 when there was none. *)
Theorem failed_write_answers_last_accepted cs c :
  accepted c <> 8 ->
  values power_on = repeat 0 11 /\
  (forall n sent b,
      fst (query n sent b) = nth 4 (values (snd (query n sent b))) 0 /\
      ((sent =? 8) = false -> values (snd (query n sent b)) = values b)) /\
  fst (call c (snd (run cs power_on))) =
    last_accepted cs (fst (run cs power_on)) 0.
Proof.
  intros Hc. split; [reflexivity|]. split.
  - intros n sent b. rewrite query_closed.
    destruct (sent =? 8); split; try reflexivity. discriminate.
  - unfold call. rewrite query_closed.
    destruct (Z.eqb_spec (accepted c) 8) as [E|_]; [contradiction|].
    cbn [fst deliver values]. apply run_tracks_last_accepted.
Qed.

Lemma failed_write_answers_last_accepted_witness :
  fst (call (mkCall Potassium 0 [])
         (snd (run [mkCall Nitrogen 8 [1; 3; 2; 0; 42; 0x38; 0x5b];
                    mkCall Phosphorus 5 []] power_on))) = 42.
Proof.
  exact (proj2 (proj2
    (failed_write_answers_last_accepted
       [mkCall Nitrogen 8 [1; 3; 2; 0; 42; 0x38; 0x5b]; mkCall Phosphorus 5 []]
       (mkCall Potassium 0 []) ltac:(discriminate)))).
Defined.

(** ** The analog conversions *)

Local Open Scope Q_scope.

Lemma pH_checked_all :
  forallb (fun k => pH_checked binary32 (Z.of_nat k)
                    && pH_checked binary64 (Z.of_nat k)) (seq 0 1024) = true.
Proof. vm_compute. reflexivity. Qed.

Lemma pH_checked_sound fmt raw :
  pH_checked fmt raw = true ->
  exists q, Q_of_float (pHValue fmt raw) = Some q /\
            0 <= q /\ q <= 14 /\ Qabs (q - pH_exact raw) <= pH_tolerance.
Proof.
  unfold pH_checked. destruct (Q_of_float (pHValue fmt raw)) as [q|];
    [|discriminate].
  rewrite !andb_true_iff, !Qle_bool_iff. intros [[H0 H14] Herr].
  exists q. auto.
Qed.

(** C8: for every raw sample in [0, 1023], whether [double] is binary32 or
    binary64, the pH computed by the sketch is a finite float in [0, 14]
    within 2^-19 of raw * (5/1023) * (14/5); and the moisture value is the
    raw sample rescaled from [0, 1023] to [0, 100], rounded down, in
    [0, 100]. *)
Theorem analog_conversions_in_range raw :
  (0 <= raw <= 1023)%Z ->
  (forall fmt, fmt = binary32 \/ fmt = binary64 ->
     exists q, Q_of_float (pHValue fmt raw) = Some q /\
               0 <= q /\ q <= 14 /\
               Qabs (q - inject_Z raw * (5 / 1023) * (14 / 5)) <= 1 # 524288) /\
  (moisturePercent raw = raw * 100 / 1023)%Z /\
  (0 <= moisturePercent raw <= 100)%Z /\
  (moisturePercent raw * 1023 <= raw * 100 < (moisturePercent raw + 1) * 1023)%Z.
Proof.
  intros Hraw.
  assert (Hin : In (Z.to_nat raw) (seq 0 1024)) by (apply in_seq; lia).
  pose proof pH_checked_all as Hall. rewrite forallb_forall in Hall.
  specialize (Hall _ Hin). rewrite Z2Nat.id in Hall by lia.
  apply andb_true_iff in Hall. destruct Hall as [H32 H64].
  assert (Hm : (moisturePercent raw = raw * 100 / 1023)%Z).
  { unfold moisturePercent, Sensor.map.
    rewrite Z.sub_0_r, Z.sub_0_r, Z.sub_0_r, Z.add_0_r.
    apply Z.quot_div_nonneg; lia. }
  split; [|split; [exact Hm|]].
  - intros fmt [-> | ->]; apply pH_checked_sound; assumption.
  - rewrite Hm.
    pose proof (Z.div_mod (raw * 100) 1023 ltac:(lia)) as Hdm.
    pose proof (Z.mod_pos_bound (raw * 100) 1023 ltac:(lia)) as Hmb.
    split; lia.
Qed.

Lemma analog_conversions_in_range_witness :
  (0 <= 512 <= 1023)%Z /\
  (exists q, Q_of_float (pHValue binary32 512) = Some q /\ 0 <= q /\ q <= 14) /\
  (moisturePercent 512 = 512 * 100 / 1023)%Z.
Proof.
  split; [lia|].
  destruct (analog_conversions_in_range 512 ltac:(lia)) as (HpH & Hm & _).
  split; [|exact Hm].
  destruct (HpH binary32 (or_introl eq_refl)) as (q & Eq & H0 & H14 & _).
  exists q. auto.
Defined.

End SensorFacts.

(* ================================================================== *)
(** * Properties of the corpus notebook *)
(* ================================================================== *)

Ltac compare_to_order H :=
  match type of H with
  | Qcompare _ _ = Eq => apply Qeq_alt in H
  | Qcompare _ _ = Lt => apply Qlt_alt in H
  | Qcompare _ _ = Gt => apply Qgt_alt in H
  end.

(** ** Rounding to the nearest double *)

Section Float64Facts.

Import Float64.
Local Open Scope Q_scope.

Lemma rint_floor q : (Qfloor q <= rint q <= Qfloor q + 1)%Z.
Proof.
  unfold rint.
  destruct (Qcompare (q - inject_Z (Qfloor q)) (1 # 2)); try lia.
  destruct (Z.even (Qfloor q)); lia.
Qed.

Lemma rint_comp a b : a == b -> rint a = rint b.
Proof.
  intros H. unfold rint. rewrite (Qfloor_comp _ _ H).
  assert (E : a - inject_Z (Qfloor b) == b - inject_Z (Qfloor b))
    by (rewrite H; reflexivity).
  rewrite (Qcompare_comp _ _ E _ _ (Qeq_refl (1 # 2))). reflexivity.
Qed.

Lemma rint_Z z : rint (inject_Z z) = z.
Proof.
  unfold rint. rewrite Qfloor_Z.
  destruct (Qcompare (inject_Z z - inject_Z z) (1 # 2)) eqn:E.
  - apply Qeq_alt in E. exfalso. lra.
  - reflexivity.
  - apply Qgt_alt in E. exfalso. lra.
Qed.

Lemma rint_error q : Qabs (inject_Z (rint q) - q) <= 1 # 2.
Proof.
  pose proof (Qfloor_le q) as Hlo. pose proof (Qlt_floor q) as Hhi.
  rewrite inject_Z_plus in Hhi. change (inject_Z 1) with 1 in Hhi.
  apply Qabs_Qle_condition. unfold rint.
  destruct (Qcompare (q - inject_Z (Qfloor q)) (1 # 2)) eqn:E.
  - apply Qeq_alt in E.
    destruct (Z.even (Qfloor q)); [|rewrite inject_Z_plus;
                                    change (inject_Z 1) with 1]; split; lra.
  - apply Qlt_alt in E. split; lra.
  - apply Qgt_alt in E. rewrite inject_Z_plus. change (inject_Z 1) with 1.
    split; lra.
Qed.

Lemma rint_mono a b : a <= b -> (rint a <= rint b)%Z.
Proof.
  intros H. pose proof (Qfloor_resp_le _ _ H) as Hf.
  pose proof (rint_floor a) as Ha. pose proof (rint_floor b) as Hb.
  destruct (Z.eq_dec (Qfloor a) (Qfloor b)) as [E|E]; [|lia].
  unfold rint. rewrite <- E.
  destruct (Qcompare (a - inject_Z (Qfloor a)) (1 # 2)) eqn:Ca;
  destruct (Qcompare (b - inject_Z (Qfloor a)) (1 # 2)) eqn:Cb;
    try (destruct (Z.even (Qfloor a))); try lia;
    compare_to_order Ca; compare_to_order Cb; exfalso; lra.
Qed.

Example rint_halves_to_even :
  List.map rint [1 # 2; 3 # 2; 5 # 2; -1 # 2; -3 # 2; 2.49; 2.51] =
  [0; 2; 2; 0; -2; 2; 3]%Z.
Proof. reflexivity. Qed.

Lemma pow2_pos e : 0 < pow2 e.
Proof. apply Qpower_0_lt. reflexivity. Qed.

Lemma pow2_add a b : pow2 (a + b) == pow2 a * pow2 b.
Proof. apply Qpower_plus. discriminate. Qed.

Lemma pow2_le a b : (a <= b)%Z -> pow2 a <= pow2 b.
Proof. intros H. apply Qpower_le_compat_l; [exact H | discriminate]. Qed.

Lemma pow2_lt_inv a b : pow2 a < pow2 b -> (a < b)%Z.
Proof. intros H. eapply Qpower_lt_compat_l_inv; [exact H | reflexivity]. Qed.

Lemma pow2_Z n : (0 <= n)%Z -> pow2 n == inject_Z (2 ^ n).
Proof. intros H. rewrite Zpower_Qpower by exact H. reflexivity. Qed.

Lemma pow2_div a b : pow2 a / pow2 b == pow2 (a - b).
Proof.
  pose proof (pow2_pos b).
  replace a with ((a - b) + b)%Z at 1 by ring. rewrite pow2_add.
  field. lra.
Qed.

Lemma Zlog2_pow2 n :
  (0 < n)%Z ->
  pow2 (Z.log2 n) <= inject_Z n /\ inject_Z n < pow2 (Z.log2 n + 1).
Proof.
  intros H. destruct (Z.log2_spec n H) as [H1 H2].
  pose proof (Z.log2_nonneg n).
  rewrite !pow2_Z by lia. rewrite <- Zle_Qle, <- Zlt_Qlt.
  unfold Z.succ in H2. split; assumption.
Qed.

Lemma Qdiv_sandwich x y p q :
  0 < y -> pow2 p <= x -> x < pow2 (p + 1) ->
  pow2 q <= y -> y < pow2 (q + 1) ->
  pow2 (p - q - 1) < x / y /\ x / y < pow2 (p - q + 1).
Proof.
  intros Hy Hx1 Hx2 Hy1 Hy2. split.
  - apply Qlt_shift_div_l; [exact Hy|].
    apply Qlt_le_trans with (pow2 (p - q - 1) * pow2 (q + 1)).
    + apply Qmult_lt_l; [apply pow2_pos | exact Hy2].
    + rewrite <- pow2_add.
      replace (p - q - 1 + (q + 1))%Z with p by ring. exact Hx1.
  - apply Qlt_shift_div_r; [exact Hy|].
    apply Qlt_le_trans with (pow2 (p + 1)); [exact Hx2|].
    replace (p + 1)%Z with ((p - q + 1) + q)%Z by ring. rewrite pow2_add.
    apply Qmult_le_l; [apply pow2_pos | exact Hy1].
Qed.

(** [ilog2] is the binary exponent. *)
Lemma ilog2_spec a :
  0 < a -> pow2 (ilog2 a) <= a /\ a < pow2 (ilog2 a + 1).
Proof.
  intros Ha. destruct a as [n d].
  assert (Hn : (0 < n)%Z) by (unfold Qlt in Ha; simpl in Ha; lia).
  destruct (Zlog2_pow2 n Hn) as [N1 N2].
  destruct (Zlog2_pow2 (Z.pos d) eq_refl) as [D1 D2].
  assert (Hd : 0 < inject_Z (Z.pos d)) by reflexivity.
  destruct (Qdiv_sandwich _ _ _ _ Hd N1 N2 D1 D2) as [S1 S2].
  rewrite <- Qmake_Qdiv in S1, S2.
  unfold ilog2. cbn [Qnum Qden].
  set (e := (Z.log2 n - Z.log2 (Z.pos d))%Z) in *.
  destruct (Qle_bool (pow2 e) (n # d)) eqn:E.
  - apply Qle_bool_iff in E. split; assumption.
  - split; [apply Qlt_le_weak; exact S1|].
    replace (e - 1 + 1)%Z with e by ring.
    apply Qnot_le_lt. intros C. apply Qle_bool_iff in C. congruence.
Qed.

Lemma ilog2_unique a e : pow2 e <= a -> a < pow2 (e + 1) -> ilog2 a = e.
Proof.
  intros H1 H2.
  assert (Ha : 0 < a) by (eapply Qlt_le_trans; [apply pow2_pos | exact H1]).
  destruct (ilog2_spec a Ha) as [S1 S2].
  assert (L1 : (ilog2 a < e + 1)%Z)
    by (apply pow2_lt_inv; eapply Qle_lt_trans; eassumption).
  assert (L2 : (e < ilog2 a + 1)%Z)
    by (apply pow2_lt_inv; eapply Qle_lt_trans; eassumption).
  lia.
Qed.

Lemma ilog2_comp a b : 0 < a -> a == b -> ilog2 a = ilog2 b.
Proof.
  intros Ha E. destruct (ilog2_spec a Ha) as [S1 S2].
  symmetry. apply ilog2_unique; rewrite <- E; assumption.
Qed.

Lemma ilog2_mono a b : 0 < a -> a <= b -> (ilog2 a <= ilog2 b)%Z.
Proof.
  intros Ha H.
  assert (Hb : 0 < b) by (eapply Qlt_le_trans; eassumption).
  destruct (ilog2_spec a Ha) as [A1 _]. destruct (ilog2_spec b Hb) as [_ B2].
  assert (L : (ilog2 a < ilog2 b + 1)%Z).
  { apply pow2_lt_inv. eapply Qle_lt_trans; [exact A1|].
    eapply Qle_lt_trans; eassumption. }
  lia.
Qed.

Lemma ilog2_below a e : 0 < a -> a < pow2 (e + 1) -> (ilog2 a <= e)%Z.
Proof.
  intros Ha H. destruct (ilog2_spec a Ha) as [A1 _].
  assert (L : (ilog2 a < e + 1)%Z)
    by (apply pow2_lt_inv; eapply Qle_lt_trans; eassumption).
  lia.
Qed.

(** A multiple [m * 2^j] of a power of two at least as coarse as the spacing
    around [a] is a double that rounding [a] cannot cross. *)
Lemma on_grid a m j :
  (ulp_exponent a <= j)%Z ->
  inject_Z m * pow2 j / pow2 (ulp_exponent a) ==
  inject_Z (m * 2 ^ (j - ulp_exponent a)).
Proof.
  intros H. rewrite inject_Z_mult, <- pow2_Z by lia.
  rewrite <- pow2_div. pose proof (pow2_pos (ulp_exponent a)).
  field. lra.
Qed.

Lemma round_pos_le_grid a m j :
  (ulp_exponent a <= j)%Z ->
  a <= inject_Z m * pow2 j -> round_pos a <= inject_Z m * pow2 j.
Proof.
  intros Hj H. pose proof (pow2_pos (ulp_exponent a)) as Hu.
  pose proof (on_grid a m j Hj) as G. unfold round_pos. cbv zeta.
  set (u := pow2 (ulp_exponent a)) in *.
  assert (L : (rint (a / u) <= m * 2 ^ (j - ulp_exponent a))%Z).
  { rewrite <- (rint_Z (m * 2 ^ (j - ulp_exponent a))).
    apply rint_mono. rewrite <- G.
    apply Qmult_le_compat_r; [exact H|].
    apply Qlt_le_weak, Qinv_lt_0_compat, Hu. }
  rewrite Zle_Qle, <- G in L.
  apply (Qmult_le_compat_r _ _ u) in L; [|lra].
  eapply Qle_trans; [exact L|]. apply Qle_lteq. right. field. lra.
Qed.

Lemma round_pos_ge_grid a m j :
  (ulp_exponent a <= j)%Z ->
  inject_Z m * pow2 j <= a -> inject_Z m * pow2 j <= round_pos a.
Proof.
  intros Hj H. pose proof (pow2_pos (ulp_exponent a)) as Hu.
  pose proof (on_grid a m j Hj) as G. unfold round_pos. cbv zeta.
  set (u := pow2 (ulp_exponent a)) in *.
  assert (L : (m * 2 ^ (j - ulp_exponent a) <= rint (a / u))%Z).
  { rewrite <- (rint_Z (m * 2 ^ (j - ulp_exponent a))).
    apply rint_mono. rewrite <- G.
    apply Qmult_le_compat_r; [exact H|].
    apply Qlt_le_weak, Qinv_lt_0_compat, Hu. }
  rewrite Zle_Qle, <- G in L.
  apply (Qmult_le_compat_r _ _ u) in L; [|lra].
  eapply Qle_trans; [|exact L]. apply Qle_lteq. right. field. lra.
Qed.

Lemma round_pos_error a :
  Qabs (round_pos a - a) <= pow2 (ulp_exponent a - 1).
Proof.
  pose proof (pow2_pos (ulp_exponent a)) as Hu.
  assert (Hh : pow2 (ulp_exponent a - 1) == (1 # 2) * pow2 (ulp_exponent a)).
  { rewrite <- (pow2_div (ulp_exponent a) 1). change (pow2 1) with 2.
    field. }
  rewrite Hh. unfold round_pos. cbv zeta.
  set (u := pow2 (ulp_exponent a)) in *.
  pose proof (rint_error (a / u)) as E.
  apply Qabs_Qle_condition in E. destruct E as [E1 E2].
  apply (Qmult_le_compat_r _ _ u) in E1; [|lra].
  apply (Qmult_le_compat_r _ _ u) in E2; [|lra].
  assert (X : (inject_Z (rint (a / u)) - a / u) * u ==
              inject_Z (rint (a / u)) * u - a) by (field; lra).
  rewrite X in E1, E2.
  set (w := inject_Z (rint (a / u)) * u) in *. clearbody w.
  clear X Hh. clearbody u. apply Qabs_Qle_condition. split; lra.
Qed.

Lemma round_pos_mono a b : 0 < a -> a <= b -> round_pos a <= round_pos b.
Proof.
  intros Ha H.
  assert (Hb : 0 < b) by (eapply Qlt_le_trans; eassumption).
  pose proof (ilog2_mono a b Ha H) as He.
  destruct (Z.eq_dec (ulp_exponent a) (ulp_exponent b)) as [E|E].
  - unfold round_pos. cbv zeta. rewrite E.
    pose proof (pow2_pos (ulp_exponent b)) as Hu.
    apply Qmult_le_compat_r; [|lra]. rewrite <- Zle_Qle.
    apply rint_mono. apply Qmult_le_compat_r; [exact H|].
    apply Qlt_le_weak, Qinv_lt_0_compat, Hu.
  - destruct (ilog2_spec a Ha) as [_ A2]. destruct (ilog2_spec b Hb) as [B1 _].
    unfold ulp_exponent, emin, prec in E.
    assert (Hlt : (ilog2 a < ilog2 b)%Z) by lia.
    assert (Hmin : (-1022 < ilog2 b)%Z) by lia.
    apply Qle_trans with (inject_Z 1 * pow2 (ilog2 b)).
    + apply round_pos_le_grid; [unfold ulp_exponent, emin, prec; lia|].
      change (inject_Z 1) with 1. rewrite Qmult_1_l.
      apply Qlt_le_weak. eapply Qlt_le_trans; [exact A2|].
      apply pow2_le. lia.
    + apply round_pos_ge_grid; [unfold ulp_exponent, emin, prec; lia|].
      change (inject_Z 1) with 1. rewrite Qmult_1_l. exact B1.
Qed.

Lemma round64_pos a : 0 < a -> round64 a = round_pos a.
Proof.
  intros H. unfold round64. apply Qgt_alt in H. rewrite H. reflexivity.
Qed.

Lemma round64_zero a : a == 0 -> round64 a = 0.
Proof.
  intros H. unfold round64. apply Qeq_alt in H. rewrite H. reflexivity.
Qed.

Lemma round64_cases a :
  0 <= a -> (a == 0 /\ round64 a = 0) \/ (0 < a /\ round64 a = round_pos a).
Proof.
  intros H. destruct (Qeq_dec a 0) as [E|E].
  - left. split; [exact E | now apply round64_zero].
  - right. assert (Ha : 0 < a).
    { apply Qnot_le_lt. intros C. apply E. lra. }
    split; [exact Ha | now apply round64_pos].
Qed.

Lemma round64_nonneg a : 0 <= a -> 0 <= round64 a.
Proof.
  intros H. destruct (round64_cases a H) as [[_ ->]|[Ha ->]]; [lra|].
  setoid_replace 0 with (inject_Z 0 * pow2 (ulp_exponent a))
    by (change (inject_Z 0) with 0; ring).
  apply round_pos_ge_grid; [lia|].
  change (inject_Z 0) with 0. rewrite Qmult_0_l. exact H.
Qed.

(** Rounding to nearest is monotone. *)
Lemma round64_mono a b : 0 <= a -> a <= b -> round64 a <= round64 b.
Proof.
  intros Ha H. assert (Hb : 0 <= b) by lra.
  destruct (round64_cases a Ha) as [[_ ->]|[Ha' ->]];
    [now apply round64_nonneg|].
  rewrite round64_pos by lra. now apply round_pos_mono.
Qed.

Lemma small_ulp a : 0 < a -> a < pow2 53 -> (ulp_exponent a <= 0)%Z.
Proof.
  intros Ha H. pose proof (ilog2_below a 52 Ha H).
  unfold ulp_exponent, emin, prec. lia.
Qed.

(** Below [2^53] rounding does not cross an integer. *)
Lemma round64_le_Z a z :
  0 <= a -> a < pow2 53 -> a <= inject_Z z -> round64 a <= inject_Z z.
Proof.
  intros Ha H53 H. destruct (round64_cases a Ha) as [[E ->]|[Ha' ->]]; [lra|].
  setoid_replace (inject_Z z) with (inject_Z z * pow2 0)
    by (change (pow2 0) with 1; ring).
  apply round_pos_le_grid; [now apply small_ulp|].
  change (pow2 0) with 1. rewrite Qmult_1_r. exact H.
Qed.

Lemma round64_ge_Z a z :
  0 <= a -> a < pow2 53 -> inject_Z z <= a -> inject_Z z <= round64 a.
Proof.
  intros Ha H53 H. destruct (round64_cases a Ha) as [[E ->]|[Ha' ->]]; [lra|].
  setoid_replace (inject_Z z) with (inject_Z z * pow2 0)
    by (change (pow2 0) with 1; ring).
  apply round_pos_ge_grid; [now apply small_ulp|].
  change (pow2 0) with 1. rewrite Qmult_1_r. exact H.
Qed.

(** The error of one rounding is at most half the spacing of the doubles. *)
Lemma round64_error a e :
  0 <= a -> a < pow2 (e + 1) -> (emin <= e)%Z ->
  Qabs (round64 a - a) <= pow2 (e - 53).
Proof.
  intros Ha H He. destruct (round64_cases a Ha) as [[E ->]|[Ha' ->]].
  - setoid_replace (0 - a) with 0 by lra. apply Qlt_le_weak, pow2_pos.
  - eapply Qle_trans; [apply round_pos_error|]. apply pow2_le.
    pose proof (ilog2_below a e Ha' H). unfold ulp_exponent, emin, prec in *.
    lia.
Qed.

(** [round64] agrees with the rounding of [SpecFloat]'s binary64 on
    significands of up to 97 bits, among them halfway cases, at exponents
    from the subnormal range upwards, for both signs. *)
Example round64_agrees_with_SpecFloat :
  let significands :=
    [1; 3; 5; 7; 4503599627370495; 4503599627370497; 6004799503160661;
     9007199254740991; 9007199254740992; 9007199254740993;
     18014398509481983; 18014398509481985; 18014398509481986;
     18014398509481987; 36028797018963966; 36028797018963967;
     36028797018963970; 36028797018963974;
     123456789012345678901234567890]%Z in
  let exponents :=
    [-1140; -1130; -1127; -1126; -1100; -1076; -1075; -1074; -1073; -1030;
     -1022; -60; -3; 0; 1; 70; 800]%Z in
  forallb (fun m => forallb (fun e =>
     is_value (binary_normalize 53 1024 m e false)
              (round64 (inject_Z m * pow2 e))
     && is_value (binary_normalize 53 1024 (- m) e false)
                 (round64 (inject_Z (- m) * pow2 e))) exponents) significands
  = true.
Proof. vm_compute. reflexivity. Qed.

(** The operations agree with [SpecFloat]'s binary64 on sample doubles:
    2.675, 6.805, 54.4, 0.1, a third, 0.999375, and sums and quotients of
    them. *)
Example operations_agree_with_SpecFloat :
  let x1 := S754_finite false 3011782250804019 (-50) in
  let x2 := S754_finite false 957718608258007 (-47) in
  let x3 := S754_finite false 7656119366529843 (-47) in
  let x4 := S754_finite false 3602879701896397 (-55) in
  let x5 := SFdiv 53 1024 (of_int 1) (of_int 3) in
  let x6 := SFdiv 53 1024 (of_int 1599) (of_int 1600) in
  let xs := [x1; x2; x3; x4; x5; x6; of_int 100; of_int 5] in
  let value x := match Sensor.Q_of_float x with Some q => q | None => 0 end in
  forallb (fun x => forallb (fun y =>
     is_value (SFmul 53 1024 x y) (mul64 (value x) (value y))
     && is_value (SFdiv 53 1024 x y) (div64 (value x) (value y))
     && is_value (SFadd 53 1024 x y) (add64 (value x) (value y))) xs) xs
  = true.
Proof. vm_compute. reflexivity. Qed.

End Float64Facts.

(** ** [generate_feature] and the generation loop *)

Section SynthFacts.

Import Synth Fixtures.
Local Open Scope Q_scope.

Lemma clip_in_range lo hi x : lo <= hi -> in_range lo hi (clip x lo hi).
Proof.
  intros H. unfold in_range, clip. split.
  - apply Q.min_glb; [apply Q.le_max_r | assumption].
  - apply Q.le_min_r.
Qed.

Lemma clip_cases lo hi x :
  lo <= hi ->
  (x <= lo -> clip x lo hi == lo) /\
  (hi <= x -> clip x lo hi == hi) /\
  (lo <= x -> x <= hi -> clip x lo hi == x).
Proof.
  intros Hr. unfold clip. split; [|split]; intros.
  - rewrite Q.max_r by assumption. now apply Q.min_l.
  - apply Q.min_r. eapply Qle_trans; [eassumption | apply Q.le_max_l].
  - rewrite Q.max_l by assumption. now apply Q.min_l.
Qed.

(** [round(2)] of a value between two integers of the range [0, 1000]: the
    result stays between them, is within half a hundredth (and the rounding
    of the multiplication and of the division) of the value, and is the
    double nearest to a whole number of hundredths. *)
Lemma round2_spec L H x :
  (0 <= L)%Z -> (H <= 1000)%Z -> inject_Z L <= x -> x <= inject_Z H ->
  inject_Z L <= round2 x /\ round2 x <= inject_Z H /\
  Qabs (round2 x - x) <= (1 # 200) + Float64.pow2 (-42) /\
  Qabs (round2 x
        - inject_Z (Float64.rint (Float64.mul64 x 100)) / 100)
    <= Float64.pow2 (-44).
Proof.
  intros HL HH Hx1 Hx2.
  assert (P53 : Float64.pow2 53 == 9007199254740992) by reflexivity.
  assert (P17 : Float64.pow2 (16 + 1) == 131072) by reflexivity.
  assert (P10 : Float64.pow2 (9 + 1) == 1024) by reflexivity.
  assert (E37 : Float64.pow2 (16 - 53) == 1 # 137438953472) by reflexivity.
  assert (E44 : Float64.pow2 (-44) == 1 # 17592186044416) by reflexivity.
  assert (E42 : Float64.pow2 (-42) == 1 # 4398046511104) by reflexivity.
  assert (HL' : 0 <= inject_Z L) by (rewrite Zle_Qle in HL; exact HL).
  assert (HH' : inject_Z H <= 1000) by (rewrite Zle_Qle in HH; exact HH).
  unfold round2, Float64.div64, Float64.mul64.
  set (y := Float64.round64 (x * 100)).
  assert (Y1 : inject_Z (L * 100) <= y).
  { apply round64_ge_Z; [lra | lra |].
    rewrite inject_Z_mult. change (inject_Z 100) with 100. lra. }
  assert (Y2 : y <= inject_Z (H * 100)).
  { apply round64_le_Z; [lra | lra |].
    rewrite inject_Z_mult. change (inject_Z 100) with 100. lra. }
  assert (Ye : Qabs (y - x * 100) <= Float64.pow2 (16 - 53)).
  { apply round64_error; [lra | lra | unfold Float64.emin; lia]. }
  set (n := Float64.rint y).
  assert (N1 : (L * 100 <= n)%Z).
  { rewrite <- (rint_Z (L * 100)). apply rint_mono. exact Y1. }
  assert (N2 : (n <= H * 100)%Z).
  { rewrite <- (rint_Z (H * 100)). apply rint_mono. exact Y2. }
  pose proof (rint_error y) as Ne. fold n in Ne.
  rewrite Zle_Qle, inject_Z_mult in N1, N2.
  change (inject_Z 100) with 100 in N1, N2.
  set (w := inject_Z n) in *.
  set (q := w / 100).
  assert (Eq : q * 100 == w) by (unfold q; field).
  assert (Ve : Qabs (Float64.round64 q - q) <= Float64.pow2 (9 - 53)).
  { apply round64_error; [lra | lra | unfold Float64.emin; lia]. }
  change (Float64.pow2 (9 - 53)) with (Float64.pow2 (-44)) in Ve.
  assert (V1 : inject_Z L <= Float64.round64 q)
    by (apply round64_ge_Z; lra).
  assert (V2 : Float64.round64 q <= inject_Z H)
    by (apply round64_le_Z; lra).
  split; [exact V1|]. split; [exact V2|]. split; [|exact Ve].
  rewrite E37 in Ye. rewrite E44 in Ve. rewrite E42.
  apply Qabs_Qle_condition in Ye, Ne, Ve. apply Qabs_Qle_condition.
  set (v := Float64.round64 q) in *.
  clearbody v q w y. split; lra.
Qed.

Lemma integralb_sound q : integralb q = true -> q == inject_Z (Qfloor q).
Proof. unfold integralb. rewrite Qeq_bool_iff. intros H. now rewrite H. Qed.

Lemma round2_of_clip lo hi x :
  range_okb (lo, hi) = true ->
  clamped_and_rounded lo hi x (round2 (clip x lo hi)).
Proof.
  unfold range_okb. cbn [fst snd]. rewrite !andb_true_iff, !Qle_bool_iff.
  intros [[[[H0 Hle] H1000] Ilo] Ihi].
  apply integralb_sound in Ilo, Ihi.
  set (L := Qfloor lo) in *. set (H := Qfloor hi) in *.
  assert (HL : (0 <= L)%Z) by (rewrite Zle_Qle, <- Ilo; exact H0).
  assert (HH : (H <= 1000)%Z) by (rewrite Zle_Qle, <- Ihi; exact H1000).
  assert (HLH : (L <= H)%Z) by (rewrite Zle_Qle, <- Ilo, <- Ihi; exact Hle).
  destruct (clip_in_range lo hi x Hle) as [C1 C2].
  destruct (clip_cases lo hi x Hle) as (K1 & K2 & K3).
  set (c := clip x lo hi) in *. clearbody c.
  assert (Hin : forall A B, (0 <= A)%Z -> (B <= 1000)%Z ->
            inject_Z A <= c -> c <= inject_Z B ->
            inject_Z A <= round2 c /\ round2 c <= inject_Z B)
    by (intros A B HA HB Hc1 Hc2;
        destruct (round2_spec A B c HA HB Hc1 Hc2) as (R1 & R2 & _);
        split; assumption).
  destruct (round2_spec L H c HL HH) as (R1 & R2 & R3 & R4);
    [rewrite <- Ilo; exact C1 | rewrite <- Ihi; exact C2|].
  unfold clamped_and_rounded.
  split; [rewrite Ilo; exact R1|]. split; [rewrite Ihi; exact R2|].
  split; [|split; [|split]].
  - intros Hx. specialize (K1 Hx).
    destruct (Hin L L HL ltac:(lia)) as [A1 A2];
      [rewrite K1, Ilo; apply Qle_refl | rewrite K1, Ilo; apply Qle_refl|].
    rewrite Ilo. now apply Qle_antisym.
  - intros Hx. specialize (K2 Hx).
    destruct (Hin H H ltac:(lia) HH) as [A1 A2];
      [rewrite K2, Ihi; apply Qle_refl | rewrite K2, Ihi; apply Qle_refl|].
    rewrite Ihi. now apply Qle_antisym.
  - intros Hx1 Hx2. rewrite <- (K3 Hx1 Hx2). exact R3.
  - exists (Float64.rint (Float64.mul64 c 100)).
    split; [reflexivity | exact R4].
Qed.

(** [round(2)] on concrete doubles.  The double written [2.675] lies below
    2.675, yet its product with 100 rounds to 267.5 and the result is the
    double 2.68. *)
Example round2_of_2_675 :
  let x := 3011782250804019 # 1125899906842624 in
  x < 2.675 /\
  Float64.mul64 x 100 == 267.5 /\
  round2 x == Float64.round64 2.68 /\
  Float64.is_value
    (SFdiv 53 1024
       (Float64.of_int
          (Float64.rint
             (Float64.mul64 x 100)))
       (Float64.of_int 100))
    (round2 x) = true.
Proof. vm_compute. repeat split; intro; discriminate. Qed.

Example round2_samples :
  List.map (fun x => Qred (round2 x)) [3.14159; 6.805; 6.815; 7] =
  List.map (fun k => Qred (Float64.round64 (inject_Z k / 100)))
           [314; 680; 682; 700]%Z.
Proof. vm_compute. reflexivity. Qed.

Example clip_samples :
  List.map (fun x => clip x 4.0 9.0) [3.2; 4.0; 6.8; 9.0; 11.5] =
  [4.0; 4.0; 6.8; 9.0; 9.0].
Proof. reflexivity. Qed.

Example generate_feature_pH :
  option_map (fun r => (List.map Qred (fst r), snd r))
    (generate_feature nat sample_draws 6.8 0.3 4 "pH_Level" 0%nat) =
  Some (List.map (fun k => Qred (Float64.round64 (inject_Z k / 100)))
                 [410; 680; 684; 900]%Z, 1%nat).
Proof. vm_compute. reflexivity. Qed.

Example generate_feature_unknown :
  generate_feature nat sample_draws 1 1 4 "VOC_Level_ppm" 0%nat = None.
Proof. reflexivity. Qed.

Example generate_feature_negative_std :
  generate_feature nat sample_draws 6.8 (-0.3) 4 "pH_Level" 0%nat = None.
Proof. reflexivity. Qed.

Lemma lookup_In {V} (d : dict V) k v : lookup d k = Some v -> In (k, v) d.
Proof.
  induction d as [|[k' v'] rest IH]; simpl; [discriminate|].
  destruct (String.eqb_spec k' k) as [->|_].
  - intros [= ->]. now left.
  - intros H. right. now apply IH.
Qed.

Lemma In_lookup {V} (d : dict V) k v :
  NoDup (List.map fst d) -> In (k, v) d -> lookup d k = Some v.
Proof.
  induction d as [|[k' v'] rest IH]; simpl; intros Hnd Hin; [contradiction|].
  inversion Hnd as [|? ? Hk Hrest]; subst.
  destruct Hin as [[= -> ->]|Hin].
  - now rewrite String.eqb_refl.
  - destruct (String.eqb_spec k' k) as [->|_]; [|now apply IH].
    exfalso. apply Hk. apply in_map_iff. exists (k, v). auto.
Qed.

Lemma NoDup_of_nodup (l : list string) : nodup string_dec l = l -> NoDup l.
Proof. intros <-. apply NoDup_nodup. Qed.

Lemma ranges_usable feat r : lookup ranges feat = Some r -> range_okb r = true.
Proof.
  intros H. apply lookup_In in H.
  assert (Hall : forallb (fun kv => range_okb (snd kv)) ranges = true)
    by (vm_compute; reflexivity).
  rewrite forallb_forall in Hall. exact (Hall _ H).
Qed.

Lemma In_setitem {V} (d : dict V) k v kv :
  In kv (setitem d k v) -> In kv d \/ kv = (k, v).
Proof.
  induction d as [|[k' v'] rest IH]; simpl.
  - intros [<-|[]]. now right.
  - destruct (String.eqb_spec k' k) as [->|_]; simpl.
    + intros [<-|H]; auto.
    + intros [<-|H]; auto. destruct (IH H); auto.
Qed.

Lemma In_merge {V} (d2 : dict V) : forall d1 kv,
  In kv (merge d1 d2) -> In kv d1 \/ In kv d2.
Proof.
  unfold merge. induction d2 as [|[k v] rest IH]; intros d1 kv; simpl; auto.
  intros H. destruct (IH _ _ H) as [H1|H1]; auto.
  destruct (In_setitem _ _ _ _ H1) as [H2|H2]; auto.
Qed.

Lemma setitem_keys {V} (d : dict V) k v :
  ~ In k (List.map fst d) ->
  List.map fst (setitem d k v) = List.map fst d ++ [k].
Proof.
  induction d as [|[k0 v0] rest IH]; simpl; intros Hk; [reflexivity|].
  destruct (String.eqb_spec k0 k) as [->|_]; [tauto|].
  simpl. rewrite IH by tauto. reflexivity.
Qed.

(** When no key is shared or repeated, merging appends. *)
Lemma merge_keys {V} (d2 : dict V) : forall d1,
  NoDup (List.map fst d1 ++ List.map fst d2) ->
  List.map fst (merge d1 d2) = List.map fst d1 ++ List.map fst d2.
Proof.
  unfold merge. induction d2 as [|[k v] rest IH]; intros d1 Hnd; simpl.
  - now rewrite app_nil_r.
  - assert (Hk : ~ In k (List.map fst d1)).
    { intros Hin. simpl in Hnd. apply NoDup_remove_2 in Hnd.
      apply Hnd, in_or_app. now left. }
    rewrite IH; rewrite setitem_keys by exact Hk.
    + rewrite <- app_assoc. reflexivity.
    + rewrite <- app_assoc. exact Hnd.
Qed.

Lemma Forall2_of_map {A B} (P : A -> B -> Prop) (f : A -> B) l :
  (forall x, P x (f x)) -> Forall2 P l (List.map f l).
Proof. intros H. induction l; simpl; constructor; auto. Qed.

Lemma Forall2_In_right {A B} (P : A -> B -> Prop) l bs b :
  Forall2 P l bs -> In b bs -> exists a, In a l /\ P a b.
Proof.
  induction 1 as [|a b' l' bs' Hab _ IH]; intros Hin; [contradiction|].
  destruct Hin as [<-|Hin].
  - exists a. split; [now left | exact Hab].
  - destruct (IH Hin) as (a' & Ha' & Pa'). exists a'. split; [now right|].
    exact Pa'.
Qed.

Lemma Forall2_keys {A B} (P : string * A -> string * B -> Prop) l bs :
  Forall2 P l bs -> (forall a b, P a b -> fst b = fst a) ->
  List.map fst bs = List.map fst l.
Proof.
  intros H Hk. induction H as [|a b l' bs' Hab _ IH]; [reflexivity|].
  simpl. now rewrite (Hk _ _ Hab), IH.
Qed.

Lemma air_quality_tables_agree feat mean :
  In (feat, mean) air_quality_means ->
  exists std lo hi,
    lookup air_quality_means feat = Some mean /\
    lookup air_quality_std feat = Some std /\ 0 <= std /\
    lookup ranges feat = Some (lo, hi).
Proof.
  intros H.
  assert (Hnd : NoDup (List.map fst air_quality_means))
    by (apply NoDup_of_nodup; vm_compute; reflexivity).
  assert (Hall : forallb (fun kv =>
                   match lookup air_quality_std (fst kv),
                         lookup ranges (fst kv) with
                   | Some std, Some _ => Qle_bool 0 std
                   | _, _ => false
                   end) air_quality_means = true) by (vm_compute; reflexivity).
  rewrite forallb_forall in Hall. specialize (Hall _ H). cbn [fst] in Hall.
  destruct (lookup air_quality_std feat) as [std|]; [|discriminate].
  destruct (lookup ranges feat) as [[lo hi]|]; [|discriminate].
  apply Qle_bool_iff in Hall. exists std, lo, hi.
  split; [now apply In_lookup|]. auto.
Qed.

Lemma plant_tables_agree plant :
  In plant plant_classes ->
  exists params,
    lookup plant_params plant = Some params /\
    List.map fst params =
      ["pH_Level"; "Nitrogen_mg_kg"; "Phosphorus_mg_kg"; "Potassium_mg_kg";
       "Moisture_Level_%"; "Organic_Matter_%"; "Plot_Area_m2"]%string /\
    forall feat mean std, In (feat, (mean, std)) params ->
      lookup params feat = Some (mean, std) /\ 0 <= std /\
      exists lo hi, lookup ranges feat = Some (lo, hi).
Proof.
  intros H.
  assert (Hall : forallb (fun pl =>
                   match lookup plant_params pl with
                   | Some params =>
                       forallb (fun kv =>
                         match lookup ranges (fst kv) with
                         | Some _ => Qle_bool 0 (snd (snd kv))
                         | None => false
                         end) params
                   | None => false
                   end) plant_classes = true) by (vm_compute; reflexivity).
  rewrite forallb_forall in Hall. specialize (Hall _ H).
  destruct (lookup plant_params plant) as [params|] eqn:Hparams;
    [|discriminate].
  assert (Hkeys : List.map fst params =
      ["pH_Level"; "Nitrogen_mg_kg"; "Phosphorus_mg_kg"; "Potassium_mg_kg";
       "Moisture_Level_%"; "Organic_Matter_%"; "Plot_Area_m2"]%string).
  { simpl in H.
    destruct H as [<-|[<-|[<-|[<-|[<-|[]]]]]];
      vm_compute in Hparams; injection Hparams as <-; reflexivity. }
  exists params. split; [reflexivity|]. split; [exact Hkeys|].
  intros feat mean std Hin.
  rewrite forallb_forall in Hall. specialize (Hall _ Hin).
  cbn [fst snd] in Hall.
  destruct (lookup ranges feat) as [[lo hi]|]; [|discriminate].
  apply Qle_bool_iff in Hall. split; [|split; [exact Hall | eauto]].
  apply In_lookup; [|exact Hin]. rewrite Hkeys.
  apply NoDup_of_nodup. vm_compute. reflexivity.
Qed.

Section Draws.
Variable RandomState : Type.
Variable normal : Q -> Q -> nat -> RandomState -> list Q * RandomState.

Lemma traverse_ok {A B} (f : A -> G RandomState B) (P : A -> B -> Prop) l :
  (forall a s, In a l -> exists b s', f a s = Some (b, s') /\ P a b) ->
  forall s, exists bs s',
    traverse RandomState f l s = Some (bs, s') /\ Forall2 P l bs.
Proof.
  induction l as [|a rest IH]; intros Hf s.
  - exists [], s. split; [reflexivity | constructor].
  - destruct (Hf a s (or_introl eq_refl)) as (b & s1 & E1 & Pb).
    destruct (IH (fun a' s' H => Hf a' s' (or_intror H)) s1)
      as (bs & s2 & E2 & Pbs).
    exists (b :: bs), s2. split; [|now constructor].
    cbn [traverse]. unfold gbind at 1. rewrite E1.
    unfold gbind at 1. rewrite E2. reflexivity.
Qed.

Lemma generate_feature_eq mean std size feat s lo hi :
  0 <= std ->
  lookup ranges feat = Some (lo, hi) ->
  generate_feature RandomState normal mean std size feat s =
  Some (List.map (fun x => round2 (clip x lo hi))
                 (fst (normal mean std size s)),
        snd (normal mean std size s)).
Proof.
  intros Hstd Hr. unfold generate_feature, gbind, draw, subscript, gret.
  rewrite (proj2 (Qle_bool_iff 0 std) Hstd).
  destruct (normal mean std size s) as [samples s1]. now rewrite Hr.
Qed.

(** The shape of the frames, for any property [Pc] of a column that holds
    of the clipped and rounded draws made with the parameters of its
    species and feature. *)
Section Shape.
Variable Pc : string -> string -> list Q -> Prop.
Hypothesis HPc : forall plant feat mean std lo hi s,
  drawn_with plant feat mean std ->
  lookup ranges feat = Some (lo, hi) ->
  Pc plant feat (List.map (fun x => round2 (clip x lo hi))
                          (fst (normal mean std n_per_class s))).

Lemma frame_for_shape plant s :
  In plant plant_classes ->
  exists df s',
    frame_for RandomState normal plant s = Some (df, s') /\
    Plant_Type df = plant /\
    List.map fst (columns df) = feature_names /\
    forall feat col, In (feat, col) (columns df) -> Pc plant feat col.
Proof.
  intros Hp. unfold frame_for.
  match goal with |- context [traverse _ ?f air_quality_means] =>
    destruct (traverse_ok f
                (fun a b => fst b = fst a /\ Pc plant (fst b) (snd b))
                air_quality_means) with (s := s)
      as (aq & s1 & E1 & Haq)
  end.
  { intros [feat mean] s0 Hin.
    destruct (air_quality_tables_agree _ _ Hin)
      as (std & lo & hi & Hm & Hstd & Hpos & Hr).
    eexists (feat, _), _. split.
    - unfold gbind, subscript, gret. rewrite Hstd.
      rewrite (generate_feature_eq _ _ _ _ _ _ _ Hpos Hr). reflexivity.
    - split; [reflexivity|]. cbn [fst snd].
      apply HPc; [left; split; assumption | exact Hr]. }
  destruct (plant_tables_agree _ Hp) as (params & Hparams & Hkeys & Hfeat).
  match goal with |- context [traverse _ ?f _] =>
    destruct (traverse_ok f
                (fun a b => fst b = fst a /\ Pc plant (fst b) (snd b))
                params) with (s := s1)
      as (soil & s2 & E2 & Hsoil)
  end.
  { intros [feat [mean std]] s0 Hin.
    destruct (Hfeat _ _ _ Hin) as (Hl & Hpos & lo & hi & Hr).
    eexists (feat, _), _. split.
    - unfold gbind, gret.
      rewrite (generate_feature_eq _ _ _ _ _ _ _ Hpos Hr). reflexivity.
    - split; [reflexivity|]. cbn [fst snd].
      apply HPc; [right; exists params; split; assumption | exact Hr]. }
  exists (mkDataFrame (merge aq soil) plant), s2.
  split; [|split; [reflexivity|split]].
  - unfold gbind at 1. rewrite E1. unfold gbind at 1, subscript at 1.
    rewrite Hparams. unfold gbind at 1. rewrite E2. reflexivity.
  - cbn [columns].
    pose proof (Forall2_keys _ _ _ Haq (fun a b H => proj1 H)) as Kaq.
    pose proof (Forall2_keys _ _ _ Hsoil (fun a b H => proj1 H)) as Ksoil.
    rewrite merge_keys; rewrite Kaq, Ksoil, Hkeys.
    + reflexivity.
    + apply NoDup_of_nodup. vm_compute. reflexivity.
  - intros feat col Hin. cbn [columns] in Hin.
    destruct (In_merge _ _ _ Hin) as [H|H].
    + destruct (Forall2_In_right _ _ _ _ Haq H) as (a & _ & _ & Pa).
      exact Pa.
    + destruct (Forall2_In_right _ _ _ _ Hsoil H) as (a & _ & _ & Pa).
      exact Pa.
Qed.

Lemma data_list_shape s :
  exists frames s',
    data_list RandomState normal s = Some (frames, s') /\
    List.map Plant_Type frames = plant_classes /\
    Forall (fun df =>
              List.map fst (columns df) = feature_names /\
              forall feat col, In (feat, col) (columns df) ->
                               Pc (Plant_Type df) feat col) frames.
Proof.
  destruct (traverse_ok (frame_for RandomState normal)
              (fun plant df =>
                 Plant_Type df = plant /\
                 List.map fst (columns df) = feature_names /\
                 forall feat col, In (feat, col) (columns df) ->
                                  Pc plant feat col)
              plant_classes) with (s := s) as (frames & s' & E & H).
  { intros plant s0 Hin.
    destruct (frame_for_shape plant s0 Hin) as (df & s1 & Ef & Hpt & Hn & Hc).
    exists df, s1. auto. }
  exists frames, s'. split; [exact E|]. clear E.
  induction H as [|plant df ps fs (H1 & H2 & H3) _ [IH1 IH2]]; simpl.
  - split; [reflexivity | constructor].
  - split; [now rewrite H1, IH1|]. constructor; [|exact IH2].
    split; [exact H2|]. rewrite H1. exact H3.
Qed.
End Shape.

(** C9: whatever the generator draws, the loop of the notebook completes
    with one frame per species, in the order of [plant_classes]; every frame
    has the twelve feature columns; and every column is, entry by entry, the
    vector of draws made with the mean and standard deviation of its species
    and feature, each draw clamped to the declared range of the feature and
    rounded to the double nearest to a whole number of hundredths: the entry
    lies in the range, equals the bound the draw passed, or is within half a
    hundredth (and the rounding error of three [float64] operations) of the
    draw. *)
Theorem generated_values_clamped_and_rounded (s : RandomState) :
  exists frames s',
    data_list RandomState normal s = Some (frames, s') /\
    List.map Plant_Type frames = plant_classes /\
    forall df, In df frames ->
      List.map fst (columns df) = feature_names /\
      forall feat col, In (feat, col) (columns df) ->
        exists lo hi mean std s0,
          lookup ranges feat = Some (lo, hi) /\
          drawn_with (Plant_Type df) feat mean std /\
          Forall2 (clamped_and_rounded lo hi)
                  (fst (normal mean std n_per_class s0)) col.
Proof.
  destruct (data_list_shape
              (fun plant feat col =>
                 exists lo hi mean std s0,
                   lookup ranges feat = Some (lo, hi) /\
                   drawn_with plant feat mean std /\
                   Forall2 (clamped_and_rounded lo hi)
                           (fst (normal mean std n_per_class s0)) col))
    with (s := s) as (frames & s' & E & Hp & H).
  { intros plant feat mean std lo hi s0 Hd Hr.
    exists lo, hi, mean, std, s0. split; [exact Hr|]. split; [exact Hd|].
    apply Forall2_of_map. intros x. apply round2_of_clip.
    exact (ranges_usable _ _ Hr). }
  exists frames, s'. split; [exact E|]. split; [exact Hp|].
  rewrite Forall_forall in H. exact H.
Qed.
End Draws.

End SynthFacts.

(* ================================================================== *)
(** * Properties of the training notebook *)
(* ================================================================== *)

Section EncoderFacts.

Import Training.
Local Open Scope string_scope.

Lemma compare_refl s : String.compare s s = Eq.
Proof.
  induction s as [|c s IH]; simpl; [reflexivity|].
  unfold Ascii.compare. now rewrite N.compare_refl.
Qed.

Lemma str_lt_irrefl s : ~ str_lt s s.
Proof. unfold str_lt. now rewrite compare_refl. Qed.

Lemma str_lt_trans a : forall b c, str_lt a b -> str_lt b c -> str_lt a c.
Proof.
  unfold str_lt.
  induction a as [|x a IH]; intros [|y b] [|z c]; simpl; try congruence.
  unfold Ascii.compare.
  destruct (N.compare_spec (N_of_ascii x) (N_of_ascii y)) as [Exy|Lxy|Gxy];
    destruct (N.compare_spec (N_of_ascii y) (N_of_ascii z)) as [Eyz|Lyz|Gyz];
    destruct (N.compare_spec (N_of_ascii x) (N_of_ascii z)) as [Exz|Lxz|Gxz];
    try congruence; try lia.
  apply IH.
Qed.

Lemma compare_Gt_lt a b : String.compare a b = Gt -> str_lt b a.
Proof.
  unfold str_lt. intros H. rewrite String.compare_antisym, H. reflexivity.
Qed.

Lemma ltb_lt a b : String.ltb a b = true <-> str_lt a b.
Proof.
  unfold String.ltb, str_lt. destruct (String.compare a b); split; congruence.
Qed.

Lemma In_insert s l x : In x (insert s l) <-> x = s \/ In x l.
Proof.
  induction l as [|h t IH]; simpl; [intuition|].
  destruct (String.compare s h) eqn:E; simpl.
  - apply String.compare_eq_iff in E. subst. intuition.
  - intuition.
  - rewrite IH. intuition.
Qed.

Lemma In_unique y x : In x (unique y) <-> In x y.
Proof.
  induction y as [|h t IH]; simpl; [reflexivity|].
  rewrite In_insert, IH. intuition.
Qed.

Lemma insert_sorted s l :
  StronglySorted str_lt l -> StronglySorted str_lt (insert s l).
Proof.
  induction 1 as [|h t Ht IH Hh]; simpl; [repeat constructor|].
  destruct (String.compare s h) eqn:E.
  - now constructor.
  - constructor; [now constructor|]. constructor; [exact E|].
    rewrite Forall_forall in *. intros x Hx.
    eapply str_lt_trans; [exact E | now apply Hh].
  - constructor; [exact IH|]. apply compare_Gt_lt in E.
    rewrite Forall_forall in *. intros x Hx. apply In_insert in Hx.
    destruct Hx as [->|Hx]; [exact E | now apply Hh].
Qed.

Lemma unique_sorted y : StronglySorted str_lt (unique y).
Proof.
  induction y as [|h t IH]; simpl; [constructor | now apply insert_sorted].
Qed.

Lemma sorted_NoDup l : StronglySorted str_lt l -> NoDup l.
Proof.
  induction 1 as [|h t Ht IH Hh]; constructor; [|exact IH].
  intros Hin. rewrite Forall_forall in Hh.
  exact (str_lt_irrefl _ (Hh _ Hin)).
Qed.

Lemma filter_none {A} (p : A -> bool) l :
  (forall x, In x l -> p x = false) -> List.filter p l = [].
Proof.
  induction l as [|h t IH]; intros H; simpl; [reflexivity|].
  rewrite (H h (or_introl eq_refl)). apply IH. intros x Hx. apply H. now right.
Qed.

Lemma ltb_false_of_lt a b : str_lt a b -> String.ltb b a = false.
Proof.
  unfold str_lt, String.ltb. intros H.
  rewrite String.compare_antisym, H. reflexivity.
Qed.

(** In a strictly ascending list the position of an entry is the number of
    entries that sort before it. *)
Lemma index_of_sorted l label :
  StronglySorted str_lt l -> In label l ->
  index_of label l =
    Some (List.length (List.filter (fun m => String.ltb m label) l)).
Proof.
  induction 1 as [|h t Ht IH Hh]; intros Hin; [contradiction|].
  rewrite Forall_forall in Hh. cbn [index_of List.filter].
  destruct (String.eqb_spec h label) as [->|Hne].
  - unfold String.ltb at 1. rewrite compare_refl.
    rewrite filter_none; [reflexivity|].
    intros x Hx. apply ltb_false_of_lt. now apply Hh.
  - destruct Hin as [Heq|Hin]; [contradiction|].
    rewrite (proj2 (ltb_lt h label) (Hh _ Hin)).
    rewrite (IH Hin). reflexivity.
Qed.

Lemma index_of_nth_error l : forall label i,
  index_of label l = Some i -> nth_error l i = Some label.
Proof.
  induction l as [|h t IH]; intros label i; simpl; [discriminate|].
  destruct (String.eqb_spec h label) as [->|_].
  - intros [= <-]. reflexivity.
  - destruct (index_of label t) as [j|] eqn:E; [|discriminate].
    intros [= <-]. simpl. now apply IH.
Qed.

Lemma filter_perm {A} (p : A -> bool) l l' :
  Permutation l l' -> Permutation (List.filter p l) (List.filter p l').
Proof.
  induction 1 as [|x l l' _ IH|x z l|l l' l'' _ IH1 _ IH2]; simpl.
  - constructor.
  - destruct (p x); [now constructor | assumption].
  - destruct (p x), (p z); try reflexivity. constructor.
  - now transitivity (List.filter p l').
Qed.

Lemma rank_in_unique y label :
  List.length (List.filter (fun m => String.ltb m label) (unique y)) =
  sorted_rank y label.
Proof.
  unfold sorted_rank. apply Permutation_length, filter_perm.
  apply NoDup_Permutation.
  - apply sorted_NoDup, unique_sorted.
  - apply NoDup_nodup.
  - intros x. rewrite In_unique, nodup_In. reflexivity.
Qed.

Example encode_corpus_head :
  fit_transform corpus_head =
  (mkLabelEncoder ["Amla"; "Drumstick"; "Jamun"; "Mango"; "Neem"],
   Some [0; 2; 3; 2; 2; 4; 1]%nat).
Proof. reflexivity. Qed.

Example encode_unseen_label :
  encode (fit corpus_head) "Tulsi" = None /\
  decode (fit corpus_head) 5 = None /\
  decode (fit corpus_head) 3 = Some "Mango".
Proof. repeat split; reflexivity. Qed.

(** C5, as stated, fails: on this corpus Jamun is the second species to
    appear (rank 1) but is encoded as 2, and the whole table is the
    alphabetical one, not the first-occurrence one. *)
Lemma encoder_is_not_first_occurrence :
  first_occurrence_rank corpus_head "Jamun" = Some 1%nat /\
  encode (fit corpus_head) "Jamun" = Some 2%nat /\
  first_occurrence_order corpus_head =
    ["Amla"; "Jamun"; "Mango"; "Neem"; "Drumstick"] /\
  classes_ (fit corpus_head) =
    ["Amla"; "Drumstick"; "Jamun"; "Mango"; "Neem"].
Proof. repeat split; reflexivity. Qed.

(** C5, amended: the table of the encoder is the list of distinct labels of
    the corpus in ascending (code-point) order; the index of every label of
    the corpus is the number of distinct labels that sort before it, and
    decoding that index gives the label back. *)
Theorem encoder_index_is_sorted_rank y label :
  In label y ->
  StronglySorted str_lt (classes_ (fit y)) /\
  (forall l, In l (classes_ (fit y)) <-> In l y) /\
  encode (fit y) label = Some (sorted_rank y label) /\
  decode (fit y) (sorted_rank y label) = Some label.
Proof.
  intros Hin. unfold encode, decode, fit. cbn [classes_].
  assert (E : index_of label (unique y) = Some (sorted_rank y label)).
  { rewrite index_of_sorted.
    - now rewrite rank_in_unique.
    - apply unique_sorted.
    - now apply In_unique. }
  split; [apply unique_sorted|]. split; [intros l; apply In_unique|].
  split; [exact E | now apply index_of_nth_error].
Qed.

Lemma encoder_index_is_sorted_rank_witness :
  In "Jamun" corpus_head /\
  encode (fit corpus_head) "Jamun" = Some (sorted_rank corpus_head "Jamun").
Proof.
  split; [simpl; tauto|].
  exact (proj1 (proj2 (proj2
    (encoder_index_is_sorted_rank corpus_head "Jamun"
       ltac:(simpl; tauto))))).
Defined.

End EncoderFacts.

Section ScalerFacts.

Import Training.
Local Open Scope R_scope.

Lemma sum_squares_nonneg c m :
  0 <= sum (List.map (fun x => (x - m) * (x - m)) c).
Proof.
  induction c as [|x t IH]; simpl; [lra|].
  pose proof (Rle_0_sqr (x - m)) as H. unfold Rsqr in H. lra.
Qed.


Lemma var_nonneg c : 0 <= var c.
Proof.
  unfold var, mean. rewrite length_map.
  destruct c as [|x t].
  - simpl. unfold Rdiv. rewrite Rmult_0_l. lra.
  - apply Rmult_le_pos; [apply sum_squares_nonneg|].
    apply Rlt_le, Rinv_0_lt_compat, lt_0_INR. simpl. lia.
Qed.


Lemma nth_map_seq {A} (f : nat -> A) n j d :
  (j < n)%nat -> nth j (List.map f (seq 0 n)) d = f j.
Proof.
  intros H. rewrite (nth_indep _ d (f 0%nat)) by (rewrite length_map, length_seq; lia).
  rewrite map_nth, seq_nth by lia. reflexivity.
Qed.

Lemma eps_small : 0 < eps /\ eps <= / 16.
Proof.
  unfold eps. split.
  - apply Rinv_0_lt_compat. apply pow_lt. lra.
  - apply Rinv_le_contravar; [lra|].
    replace 16 with (2 ^ 4) by (simpl; lra).
    apply Rle_pow; [lra | lia].
Qed.






End ScalerFacts.

Section SearchFacts.

Import Training.
Local Open Scope nat_scope.

Lemma argmin_from_spec t : forall pre bi bv,
  bi < List.length pre ->
  nth bi pre 0 = bv ->
  (forall j, j < List.length pre -> bv <= nth j pre 0) ->
  (forall j, j < bi -> bv < nth j pre 0) ->
  let r := argmin_from t (List.length pre) bi bv in
  r < List.length (pre ++ t) /\
  (forall j, j < List.length (pre ++ t) ->
             nth r (pre ++ t) 0 <= nth j (pre ++ t) 0) /\
  (forall j, j < r -> nth r (pre ++ t) 0 < nth j (pre ++ t) 0).
Proof.
  induction t as [|x t IH]; intros pre bi bv Hbi Hnth Hmin Hfirst; cbn [argmin_from].
  - rewrite app_nil_r. rewrite Hnth. auto.
  - replace (pre ++ x :: t) with ((pre ++ [x]) ++ t)
      by (rewrite <- app_assoc; reflexivity).
    replace (S (List.length pre)) with (List.length (pre ++ [x]))
      by (rewrite length_app; simpl; lia).
    assert (Hlast : nth (List.length pre) (pre ++ [x]) 0 = x)
      by (rewrite app_nth2, Nat.sub_diag by lia; reflexivity).
    assert (Hold : forall j, j < List.length pre ->
                             nth j (pre ++ [x]) 0 = nth j pre 0)
      by (intros j Hj; now rewrite app_nth1).
    destruct (Nat.ltb_spec x bv) as [Hlt|Hge].
    + apply IH.
      * rewrite length_app. simpl. lia.
      * exact Hlast.
      * intros j Hj. rewrite length_app in Hj. simpl in Hj.
        destruct (Nat.eq_dec j (List.length pre)) as [->|Hne].
        -- rewrite Hlast. lia.
        -- rewrite Hold by lia. specialize (Hmin j ltac:(lia)). lia.
      * intros j Hj. rewrite Hold by lia. specialize (Hmin j Hj). lia.
    + apply IH.
      * rewrite length_app. simpl. lia.
      * rewrite Hold by lia. exact Hnth.
      * intros j Hj. rewrite length_app in Hj. simpl in Hj.
        destruct (Nat.eq_dec j (List.length pre)) as [->|Hne].
        -- rewrite Hlast. lia.
        -- rewrite Hold by lia. apply Hmin. lia.
      * intros j Hj. rewrite Hold by lia. now apply Hfirst.
Qed.

(** [argmin] returns the first position of the least entry. *)
Lemma argmin_spec l :
  l <> [] ->
  argmin l < List.length l /\
  (forall j, j < List.length l -> nth (argmin l) l 0 <= nth j l 0) /\
  (forall j, j < argmin l -> nth (argmin l) l 0 < nth j l 0).
Proof.
  destruct l as [|x t]; [congruence|]. intros _.
  apply (argmin_from_spec t [x] 0 x); simpl; try lia; try reflexivity.
  intros [|j] Hj; [lia | simpl in Hj; lia].
Qed.

Lemma filter_length_le {A} (p q : A -> bool) l :
  (forall x, p x = true -> q x = true) ->
  List.length (List.filter p l) <= List.length (List.filter q l).
Proof.
  intros Hpq. induction l as [|x t IH]; simpl; [lia|].
  destruct (p x) eqn:Ep.
  - rewrite (Hpq x Ep). simpl. lia.
  - destruct (q x); simpl; lia.
Qed.

Lemma filter_length_lt {A} (p q : A -> bool) l x :
  (forall y, p y = true -> q y = true) ->
  In x l -> q x = true -> p x = false ->
  List.length (List.filter p l) < List.length (List.filter q l).
Proof.
  intros Hpq. induction l as [|h t IH]; intros Hin Hq Hp; [contradiction|].
  simpl. destruct Hin as [->|Hin].
  - rewrite Hq, Hp. simpl. pose proof (filter_length_le p q t Hpq). lia.
  - specialize (IH Hin Hq Hp). destruct (p h) eqn:Ep.
    + rewrite (Hpq h Ep). simpl. lia.
    + destruct (q h); simpl; lia.
Qed.

Lemma Qltb_lt a b : Qltb a b = true <-> (a < b)%Q.
Proof.
  unfold Qltb. rewrite negb_true_iff, <- not_true_iff_false, Qle_bool_iff.
  split; [apply Qnot_le_lt | apply Qlt_not_le].
Qed.

(** The candidate picked by rank is a maximum of the means, and the first
    one: every earlier candidate has a strictly smaller mean. *)
Lemma first_best ms :
  ms <> [] ->
  let r := argmin (rank_test_score ms) in
  r < List.length ms /\
  (forall j, j < List.length ms -> (nth j ms 0 <= nth r ms 0)%Q) /\
  (forall j, j < r -> (nth j ms 0 < nth r ms 0)%Q).
Proof.
  intros Hne r.
  assert (Hlen : List.length (rank_test_score ms) = List.length ms)
    by (unfold rank_test_score; apply length_map).
  assert (Hrank : forall j, j < List.length ms ->
            nth j (rank_test_score ms) 0 =
            S (List.length (List.filter (fun m' => Qltb (nth j ms 0%Q) m') ms))).
  { intros j Hj. unfold rank_test_score.
    rewrite (nth_indep _ 0 (S (List.length
               (List.filter (fun m' => Qltb 0%Q m') ms))))
      by (rewrite length_map; exact Hj).
    exact (map_nth (fun m => S (List.length
             (List.filter (fun m' => Qltb m m') ms))) ms 0%Q j). }
  destruct (argmin_spec (rank_test_score ms)) as (Hr & Hmin & Hfirst).
  { intros E. apply Hne. destruct ms; [reflexivity | discriminate]. }
  fold r in Hr, Hmin, Hfirst. rewrite Hlen in Hr, Hmin.
  assert (Hmax : forall j, j < List.length ms -> (nth j ms 0 <= nth r ms 0)%Q).
  { intros j Hj. apply Qnot_lt_le. intros Hlt.
    specialize (Hmin j Hj). rewrite !Hrank in Hmin by assumption.
    assert (List.length (List.filter (fun m' => Qltb (nth j ms 0%Q) m') ms) <
            List.length (List.filter (fun m' => Qltb (nth r ms 0%Q) m') ms)).
    { apply filter_length_lt with (x := nth j ms 0%Q).
      - intros y Hy. apply Qltb_lt. apply Qltb_lt in Hy.
        eapply Qlt_trans; eassumption.
      - now apply nth_In.
      - now apply Qltb_lt.
      - apply not_true_iff_false. rewrite Qltb_lt. apply Qlt_irrefl. }
    lia. }
  split; [exact Hr|]. split; [exact Hmax|].
  intros j Hj. apply Qnot_le_lt. intros Hle.
  assert (Hjl : j < List.length ms) by lia.
  specialize (Hfirst j Hj). rewrite !Hrank in Hfirst by assumption.
  assert (List.length (List.filter (fun m' => Qltb (nth j ms 0%Q) m') ms) <=
          List.length (List.filter (fun m' => Qltb (nth r ms 0%Q) m') ms)).
  { apply filter_length_le. intros y Hy. apply Qltb_lt. apply Qltb_lt in Hy.
    eapply Qle_lt_trans; [exact Hle | exact Hy]. }
  lia.
Qed.

Lemma prefers_sound a b :
  prefers a b = true ->
  (fst a < fst b)%Z \/
  (fst a = fst b /\ (snd a = uniform \/ snd b = snd a)).
Proof.
  unfold prefers. rewrite orb_true_iff, andb_true_iff, Z.ltb_lt, Z.eqb_eq.
  intros [H|[H1 H2]]; [now left | right].
  split; [exact H1|]. destruct (snd a), (snd b); auto; discriminate.
Qed.

Lemma grid_in_preference_order i j :
  i <= j -> j < List.length ParameterGrid ->
  prefers (nth i ParameterGrid (0%Z, uniform))
          (nth j ParameterGrid (0%Z, uniform)) = true.
Proof.
  intros Hij Hj.
  assert (Hall : forallb (fun j' =>
            forallb (fun i' =>
              Nat.ltb j' i' ||
              prefers (nth i' ParameterGrid (0%Z, uniform))
                      (nth j' ParameterGrid (0%Z, uniform)))
              (seq 0 (List.length ParameterGrid)))
            (seq 0 (List.length ParameterGrid)) = true)
    by (vm_compute; reflexivity).
  rewrite forallb_forall in Hall.
  specialize (Hall j ltac:(apply in_seq; lia)).
  rewrite forallb_forall in Hall.
  specialize (Hall i ltac:(apply in_seq; lia)).
  apply orb_true_iff in Hall. destruct Hall as [H|H]; [|exact H].
  apply Nat.ltb_lt in H. lia.
Qed.

(** The search on concrete score tables: all candidates equal, and one
    candidate ahead of the others. *)
Example search_all_tied :
  best_params_ (fun _ _ => Float64.round64 (97 # 100))%Q = (3%Z, uniform).
Proof. vm_compute. reflexivity. Qed.

Example search_nine_distance :
  best_params_ (fun p i =>
      match p with
      | (9%Z, distance) => Float64.round64 (971 # 1000)
      | (11%Z, _) => Float64.round64 (971 # 1000)
      | _ => Float64.round64 (965 # 1000)
      end)%Q = (9%Z, distance).
Proof. vm_compute. reflexivity. Qed.

Example argmin_first_of_ties : argmin [3; 1; 2; 1] = 1.
Proof. reflexivity. Qed.

(** [np.mean] on the scores of one candidate: the sum and the quotient as
    [SpecFloat]'s binary64 computes them. *)
Example mean_test_score_agrees_with_SpecFloat :
  let score h := SFdiv 53 1024 (Float64.of_int h) (Float64.of_int 1600) in
  let total :=
    fold_left (SFadd 53 1024)
      (List.map score [1599; 1473; 1515; 1496; 1591]%Z) (S754_zero false) in
  Float64.is_value (SFdiv 53 1024 total (Float64.of_int 5))
    (mean_test_score permuted_folds (3%Z, uniform)) = true.
Proof. vm_compute. reflexivity. Qed.

Local Open Scope Q_scope.

(** One addition of a score to a partial sum. *)
Lemma add64_bounds s a k e :
  0 <= s -> s <= inject_Z k -> 0 <= a -> a <= 1 ->
  inject_Z (k + 1) < Float64.pow2 (e + 1) -> (0 <= e <= 52)%Z ->
  0 <= Float64.add64 s a /\ Float64.add64 s a <= inject_Z (k + 1) /\
  Qabs (Float64.add64 s a - (s + a)) <= Float64.pow2 (e - 53).
Proof.
  intros Hs1 Hs2 Ha1 Ha2 Hk He. unfold Float64.add64.
  assert (Hsum : s + a <= inject_Z (k + 1)).
  { rewrite inject_Z_plus. change (inject_Z 1) with 1. lra. }
  assert (H53 : s + a < Float64.pow2 53).
  { eapply Qle_lt_trans; [exact Hsum|]. eapply Qlt_le_trans; [exact Hk|].
    apply pow2_le. lia. }
  split; [apply round64_nonneg; lra|].
  split; [apply round64_le_Z; [lra | exact H53 | exact Hsum]|].
  apply round64_error; [lra | | unfold Float64.emin; lia].
  eapply Qle_lt_trans; eassumption.
Qed.

Section Scores.
Variable accuracy : Z * Weights -> nat -> Q.

(** The computed mean of the five scores of a candidate is within [2^-51]
    of their exact mean. *)
Lemma mean_test_score_error p :
  (forall i, (i < cv)%nat -> 0 <= accuracy p i /\ accuracy p i <= 1) ->
  Qabs (mean_test_score accuracy p
        - (accuracy p 0 + accuracy p 1 + accuracy p 2 + accuracy p 3
           + accuracy p 4) / 5)
    <= Float64.pow2 (-51).
Proof.
  intros Hacc.
  destruct (Hacc 0%nat ltac:(unfold cv; lia)) as [A0 B0].
  destruct (Hacc 1%nat ltac:(unfold cv; lia)) as [A1 B1].
  destruct (Hacc 2%nat ltac:(unfold cv; lia)) as [A2 B2].
  destruct (Hacc 3%nat ltac:(unfold cv; lia)) as [A3 B3].
  destruct (Hacc 4%nat ltac:(unfold cv; lia)) as [A4 B4].
  unfold mean_test_score, cv. cbn [seq List.map fold_left Z.of_nat].
  set (a0 := accuracy p 0) in *. set (a1 := accuracy p 1) in *.
  set (a2 := accuracy p 2) in *. set (a3 := accuracy p 3) in *.
  set (a4 := accuracy p 4) in *.
  destruct (add64_bounds 0 a0 0 0) as (L1 & U1 & E1);
    [lra | apply Qle_refl | assumption | assumption | reflexivity | lia |].
  set (s1 := Float64.add64 0 a0) in *.
  destruct (add64_bounds s1 a1 1 1) as (L2 & U2 & E2);
    [assumption | assumption | assumption | assumption | reflexivity | lia |].
  set (s2 := Float64.add64 s1 a1) in *.
  destruct (add64_bounds s2 a2 2 1) as (L3 & U3 & E3);
    [assumption | assumption | assumption | assumption | reflexivity | lia |].
  set (s3 := Float64.add64 s2 a2) in *.
  destruct (add64_bounds s3 a3 3 2) as (L4 & U4 & E4);
    [assumption | assumption | assumption | assumption | reflexivity | lia |].
  set (s4 := Float64.add64 s3 a3) in *.
  destruct (add64_bounds s4 a4 4 2) as (L5 & U5 & E5);
    [assumption | assumption | assumption | assumption | reflexivity | lia |].
  set (s5 := Float64.add64 s4 a4) in *.
  cbn [Z.add Pos.add Pos.succ] in U1, U2, U3, U4, U5.
  change (inject_Z 1) with 1 in *. change (inject_Z 5) with 5 in *.
  clearbody s5 s4 s3 s2 s1 a0 a1 a2 a3 a4. unfold Float64.div64.
  set (t := s5 / inject_Z (Z.pos (Pos.of_succ_nat 4))).
  assert (Et : t * 5 == s5) by (unfold t; field).
  assert (Ed : Qabs (Float64.round64 t - t) <= Float64.pow2 (0 - 53)).
  { apply round64_error; [lra | | unfold Float64.emin; lia].
    change (Float64.pow2 (0 + 1)) with 2. lra. }
  set (m := Float64.round64 t) in *.
  set (x := (a0 + a1 + a2 + a3 + a4) / 5).
  assert (Ex : x * 5 == a0 + a1 + a2 + a3 + a4) by (unfold x; field).
  assert (P53 : Float64.pow2 (0 - 53) == 1 # 9007199254740992)
    by reflexivity.
  assert (P52 : Float64.pow2 (1 - 53) == 2 # 9007199254740992)
    by reflexivity.
  assert (P51 : Float64.pow2 (2 - 53) == 4 # 9007199254740992)
    by reflexivity.
  assert (Q51 : Float64.pow2 (-51) == 4 # 9007199254740992)
    by reflexivity.
  rewrite P53 in E1, Ed. rewrite P52 in E2, E3. rewrite P51 in E4, E5.
  rewrite Q51.
  apply Qabs_Qle_condition in E1, E2, E3, E4, E5, Ed.
  apply Qabs_Qle_condition.
  clearbody m t x. split; lra.
Qed.

Lemma score_nth (score : Z * Weights -> Q) j :
  nth j (List.map score ParameterGrid) 0%Q =
  score (nth j ParameterGrid (0%Z, uniform)) \/
  (List.length ParameterGrid <= j)%nat.
Proof.
  destruct (Nat.lt_ge_cases j (List.length ParameterGrid)) as [H|H];
    [left | now right].
  rewrite (nth_indep _ 0%Q (score (0%Z, uniform)))
    by (rewrite length_map; exact H).
  apply map_nth.
Qed.

(** C6, amended: the candidates are the ten pairs of the product of
    {3,5,7,9,11} and {uniform, distance}; the pair returned is one of them
    and no candidate has a higher mean score as [np.mean] computes it in
    [float64].  When the five fold accuracies of every candidate lie in
    [0, 1], that computed mean is within [2^-51] of the exact mean of the
    five accuracies, so no candidate has an exact mean accuracy more than
    [2^-50] above that of the returned pair.  A candidate whose computed
    mean equals that of the returned pair has a larger neighbour count, or
    the same count with the returned pair being the [uniform] one. *)
Theorem grid_search_returns_first_best :
  (forall p i, In p ParameterGrid -> (i < cv)%nat ->
     0 <= accuracy p i /\ accuracy p i <= 1) ->
  let exact_mean p :=
    (accuracy p 0 + accuracy p 1 + accuracy p 2 + accuracy p 3
     + accuracy p 4) / 5 in
  ParameterGrid =
    [(3, uniform); (3, distance); (5, uniform); (5, distance);
     (7, uniform); (7, distance); (9, uniform); (9, distance);
     (11, uniform); (11, distance)]%Z /\
  In (best_params_ accuracy) ParameterGrid /\
  (forall p, In p ParameterGrid ->
     mean_test_score accuracy p
       <= mean_test_score accuracy (best_params_ accuracy)) /\
  (forall p, In p ParameterGrid ->
     Qabs (mean_test_score accuracy p - exact_mean p)
       <= Float64.pow2 (-51)) /\
  (forall p, In p ParameterGrid ->
     exact_mean p
       <= exact_mean (best_params_ accuracy) + Float64.pow2 (-50)) /\
  (forall p, In p ParameterGrid ->
     mean_test_score accuracy p
       == mean_test_score accuracy (best_params_ accuracy) ->
     (fst (best_params_ accuracy) < fst p)%Z \/
     (fst (best_params_ accuracy) = fst p /\
      (snd (best_params_ accuracy) = uniform \/
       snd p = snd (best_params_ accuracy)))).
Proof.
  intros Hacc exact_mean.
  assert (Herr : forall p, In p ParameterGrid ->
            Qabs (mean_test_score accuracy p - exact_mean p)
              <= Float64.pow2 (-51)).
  { intros p Hp. apply mean_test_score_error. intros i Hi.
    now apply Hacc. }
  unfold best_params_, best_index_.
  destruct (first_best (List.map (mean_test_score accuracy) ParameterGrid))
    as (Hr & Hmax & Hfirst); [discriminate|].
  rewrite length_map in Hr, Hmax.
  set (score := mean_test_score accuracy) in *.
  set (r := argmin (rank_test_score (List.map score ParameterGrid))) in *.
  clearbody r. clearbody score.
  set (best := nth r ParameterGrid (0%Z, uniform)).
  assert (Hbest : nth r (List.map score ParameterGrid) 0%Q = score best).
  { destruct (score_nth score r) as [E|E]; [exact E | lia]. }
  rewrite Hbest in Hmax, Hfirst.
  assert (Hin : In best ParameterGrid) by (apply nth_In; exact Hr).
  split; [reflexivity|]. split; [exact Hin|].
  assert (Hidx : forall p, In p ParameterGrid ->
            exists j, (j < List.length ParameterGrid)%nat /\
                      nth j ParameterGrid (0%Z, uniform) = p /\
                      nth j (List.map score ParameterGrid) 0%Q = score p).
  { intros p Hp. destruct (In_nth _ _ (0%Z, uniform) Hp) as (j & Hj & Ej).
    exists j. split; [exact Hj|]. split; [exact Ej|].
    destruct (score_nth score j) as [E|E]; [now rewrite E, Ej | lia]. }
  assert (Hhigh : forall p, In p ParameterGrid -> score p <= score best).
  { intros p Hp. destruct (Hidx p Hp) as (j & Hj & _ & Es).
    rewrite <- Es. apply Hmax. exact Hj. }
  split; [exact Hhigh|]. split; [exact Herr|]. split.
  - intros p Hp.
    pose proof (Hhigh p Hp) as H1. pose proof (Herr p Hp) as H2.
    pose proof (Herr _ Hin) as H3.
    assert (Q51 : Float64.pow2 (-51) == 4 # 9007199254740992)
      by reflexivity.
    assert (Q50 : Float64.pow2 (-50) == 8 # 9007199254740992)
      by reflexivity.
    rewrite Q51 in H2, H3. rewrite Q50.
    apply Qabs_Qle_condition in H2, H3.
    set (m := score p) in *. set (b := score best) in *.
    set (x := exact_mean p) in *. set (y := exact_mean best) in *.
    clearbody m b x y. lra.
  - intros p Hp Htie. destruct (Hidx p Hp) as (j & Hj & Ej & Es).
    destruct (Nat.lt_ge_cases j r) as [Hlt|Hge].
    + specialize (Hfirst j Hlt). rewrite Es in Hfirst.
      rewrite Htie in Hfirst.
      exfalso. exact (Qlt_irrefl _ Hfirst).
    + pose proof (grid_in_preference_order _ _ Hge Hj) as Hpref.
      rewrite Ej in Hpref. apply prefers_sound in Hpref. exact Hpref.
Qed.
End Scores.

Lemma permuted_folds_are_accuracies p i :
  In p ParameterGrid -> (i < cv)%nat ->
  0 <= permuted_folds p i /\ permuted_folds p i <= 1.
Proof.
  intros Hp Hi.
  assert (Hall : forallb (fun p' => forallb (fun i' =>
                    Qle_bool 0 (permuted_folds p' i')
                    && Qle_bool (permuted_folds p' i') 1) (seq 0 cv))
                  ParameterGrid = true) by (vm_compute; reflexivity).
  rewrite forallb_forall in Hall. specialize (Hall p Hp).
  rewrite forallb_forall in Hall.
  specialize (Hall i ltac:(apply in_seq; lia)).
  rewrite andb_true_iff, !Qle_bool_iff in Hall. exact Hall.
Qed.

(** C6, as stated, fails on exact ties.  With [permuted_folds], the
    candidates [(3, uniform)] and [(11, distance)] have the same five fold
    accuracies in a different order, hence the same exact mean accuracy,
    the highest of all candidates; the sums computed in [float64] differ in
    their last bits, and the search returns [(11, distance)], the larger
    neighbour count and the distance weighting. *)
Lemma exact_tie_goes_to_eleven_distance :
  let exact_mean p :=
    (permuted_folds p 0 + permuted_folds p 1 + permuted_folds p 2
     + permuted_folds p 3 + permuted_folds p 4) / 5 in
  exact_mean (3%Z, uniform) == exact_mean (11%Z, distance) /\
  forallb (fun p => Qle_bool (exact_mean p) (exact_mean (3%Z, uniform)))
          ParameterGrid = true /\
  mean_test_score permuted_folds (3%Z, uniform)
    < mean_test_score permuted_folds (11%Z, distance) /\
  best_params_ permuted_folds = (11%Z, distance).
Proof. vm_compute. repeat split. Qed.

Lemma grid_search_returns_first_best_witness :
  In (best_params_ permuted_folds) ParameterGrid /\
  (forall p, In p ParameterGrid ->
     mean_test_score permuted_folds p
       <= mean_test_score permuted_folds (best_params_ permuted_folds)) /\
  (forall p, In p ParameterGrid ->
     (permuted_folds p 0 + permuted_folds p 1 + permuted_folds p 2
      + permuted_folds p 3 + permuted_folds p 4) / 5
     <= (permuted_folds (best_params_ permuted_folds) 0
         + permuted_folds (best_params_ permuted_folds) 1
         + permuted_folds (best_params_ permuted_folds) 2
         + permuted_folds (best_params_ permuted_folds) 3
         + permuted_folds (best_params_ permuted_folds) 4) / 5
        + Float64.pow2 (-50)).
Proof.
  destruct (grid_search_returns_first_best permuted_folds
              permuted_folds_are_accuracies)
    as (_ & Hin & Hhigh & _ & Hexact & _).
  split; [exact Hin|]. split; [exact Hhigh | exact Hexact].
Defined.

End SearchFacts.

(* ================================================================== *)
(** * Further properties of the sketch *)
(* ================================================================== *)

Section CycleFacts.

Import Sensor Acquisition.
Local Open Scope Z_scope.

(** X1: a query leaves both direction pins LOW when its write returned 8 and
    both HIGH otherwise, whatever their levels were before: after a refused
    write the transceiver stays in transmit mode. *)
Theorem pins_after_query n sent b :
  pinDE (snd (query n sent b)) = (if sent =? 8 then LOW else HIGH) /\
  pinRE (snd (query n sent b)) = (if sent =? 8 then LOW else HIGH) /\
  pinDE (snd (query n sent b)) = pinRE (snd (query n sent b)).
Proof.
  rewrite query_closed. destruct (sent =? 8); repeat split; reflexivity.
Qed.

Lemma reads_bytes n q : Forall is_byte (List.map byte_of_int (reads n q)).
Proof.
  apply Forall_forall. intros v Hv. apply in_map_iff in Hv.
  destruct Hv as (x & <- & _). unfold is_byte, byte_of_int.
  apply Z.mod_pos_bound. lia.
Qed.

Lemma query_keeps_buffer n sent b :
  buffer_ok (values b) ->
  buffer_ok (values (snd (query n sent b))) /\ is_byte (fst (query n sent b)).
Proof.
  intros (Hlen & Hbytes & Htail).
  assert (Hnth : forall vals, List.length vals = 11%nat -> Forall is_byte vals ->
                              is_byte (nth 4 vals 0)).
  { intros vals Hl Hb. rewrite Forall_forall in Hb. apply Hb, nth_In. lia. }
  rewrite query_closed. destruct (sent =? 8); cbn [fst snd values after_request].
  - assert (Hv : buffer_ok (store_from (values b) 0
                              (List.map byte_of_int (reads 7 (rx b))))).
    { rewrite store_from_zero
        by (rewrite length_map, reads_length, Hlen; lia).
      rewrite length_map, reads_length, Htail. unfold buffer_ok.
      split; [|split].
      - rewrite length_app, length_map, reads_length. reflexivity.
      - apply Forall_app. split; [apply reads_bytes|].
        repeat constructor; unfold is_byte; lia.
      - rewrite skipn_app, skipn_all2, length_map, reads_length
          by (rewrite length_map, reads_length; lia).
        reflexivity. }
    split; [exact Hv|]. destruct Hv as (Hl & Hb & _). now apply Hnth.
  - split; [repeat split; assumption | now apply Hnth].
Qed.

Lemma run_keeps_buffer_from cs : forall b,
  buffer_ok (values b) ->
  buffer_ok (values (snd (run cs b))) /\ Forall is_byte (fst (run cs b)).
Proof.
  induction cs as [|c rest IH]; intros b Hb; [split; [exact Hb | constructor]|].
  cbn [run]. destruct (call c b) as [v b1] eqn:Ec.
  assert (H1 : buffer_ok (values b1) /\ is_byte v).
  { pose proof (query_keeps_buffer (who c) (accepted c)
                  (deliver (delivered c) b) Hb) as H.
    unfold call in Ec. rewrite Ec in H. exact H. }
  destruct H1 as [Hb1 Hv]. specialize (IH b1 Hb1).
  destruct (run rest b1) as [vs b2]. cbn [fst snd] in *.
  destruct IH as [Hb2 Hvs]. split; [exact Hb2 | now constructor].
Qed.

(** X2: whatever the bus does, after any sequence of queries from power-on
    the buffer still holds eleven bytes, each in [0, 256), of which the last
    four were never written; and every answer is a byte. *)
Theorem run_keeps_buffer cs :
  List.length (values (snd (run cs power_on))) = 11%nat /\
  Forall is_byte (values (snd (run cs power_on))) /\
  skipn 7 (values (snd (run cs power_on))) = [0; 0; 0; 0] /\
  Forall is_byte (fst (run cs power_on)).
Proof.
  destruct (run_keeps_buffer_from cs power_on) as [(H1 & H2 & H3) H4].
  - repeat split; try reflexivity. repeat constructor; unfold is_byte; lia.
  - auto.
Qed.

(** X3: the receive buffer is never flushed.  When the seven response bytes
    of one query arrive only after its reads, that query answers 255 and the
    next query, of whatever nutrient, answers byte 4 of the late response. *)
Theorem late_response_is_misattributed n1 n2 b resp rest :
  List.length (values b) = 11%nat ->
  rx b = [] ->
  List.length resp = 7%nat ->
  Forall is_byte resp ->
  fst (call (mkCall n1 8 []) b) = 255 /\
  fst (call (mkCall n2 8 (resp ++ rest)) (snd (call (mkCall n1 8 []) b)))
    = nth 4 resp 0 /\
  rx (snd (call (mkCall n2 8 (resp ++ rest)) (snd (call (mkCall n1 8 []) b))))
    = rest.
Proof.
  intros Hlen Hrx H7 Hb. unfold call. cbn [who accepted delivered].
  assert (Hd : deliver [] b = b).
  { destruct b; unfold deliver; cbn. now rewrite app_nil_r. }
  rewrite Hd.
  split.
  { rewrite answer_closed, Hrx by assumption. reflexivity. }
  set (b1 := snd (query n1 8 b)).
  assert (Hrx1 : rx b1 = []).
  { unfold b1. rewrite query_closed. cbn [Z.eqb Pos.eqb snd rx].
    rewrite Hrx. reflexivity. }
  assert (Hlen1 : List.length (values b1) = 11%nat).
  { unfold b1. rewrite query_closed. cbn [Z.eqb Pos.eqb snd values].
    now rewrite store_from_length. }
  assert (Hrx2 : rx (deliver (resp ++ rest) b1) = resp ++ rest)
    by (cbn [deliver rx]; now rewrite Hrx1).
  split.
  - rewrite answer_closed by exact Hlen1. rewrite Hrx2.
    rewrite app_nth1, (nth_indep _ (-1) 0) by lia.
    apply byte_of_int_id. rewrite Forall_forall in Hb. apply Hb, nth_In. lia.
  - rewrite query_closed. cbn [Z.eqb Pos.eqb snd rx]. rewrite Hrx2.
    rewrite skipn_app, skipn_all2, H7, Nat.sub_diag by lia. reflexivity.
Qed.

Lemma late_response_is_misattributed_witness :
  fst (call (mkCall Phosphorus 8 [1; 3; 2; 0; 42; 0x38; 0x5b])
         (snd (call (mkCall Nitrogen 8 []) power_on))) = 42.
Proof.
  exact (proj1 (proj2
    (late_response_is_misattributed Nitrogen Phosphorus power_on
       [1; 3; 2; 0; 42; 0x38; 0x5b] []
       eq_refl eq_refl eq_refl
       ltac:(repeat constructor; unfold is_byte; lia)))).
Defined.

(** ** One pass of [loop] *)

Lemma loop_closed fmt env b :
  loop fmt env b =
  let r1 := call (mkCall Nitrogen (acceptedN env) (deliveredN env)) b in
  let r2 := call (mkCall Phosphorus (acceptedP env) (deliveredP env))
                 (emit (Delay 250) (snd r1)) in
  let r3 := call (mkCall Potassium (acceptedK env) (deliveredK env))
                 (emit (Delay 250) (snd r2)) in
  (report (fst r1) (fst r2) (fst r3)
          (pHValue fmt (sensorValue1 env))
          (moisturePercent (sensorValue2 env)),
   emit (Delay 2000) (emit (Delay 250) (snd r3))).
Proof.
  unfold loop, bind, delay, ret. cbv zeta.
  destruct (call (mkCall Nitrogen _ _) b) as [v1 b1]. cbn [fst snd].
  destruct (call (mkCall Phosphorus _ _) _) as [v2 b2]. cbn [fst snd].
  destruct (call (mkCall Potassium _ _) _) as [v3 b3]. reflexivity.
Qed.

Lemma emit_same_bus e b : same_bus (emit e b) b.
Proof. repeat split. Qed.

Lemma same_bus_trans a b c : same_bus a b -> same_bus b c -> same_bus a c.
Proof.
  intros (H1 & H2 & H3 & H4) (K1 & K2 & K3 & K4).
  repeat split; congruence.
Qed.

(** The answer of a call and the bus it leaves do not depend on the log. *)
Lemma call_same_bus c b b' :
  same_bus b b' ->
  fst (call c b) = fst (call c b') /\
  same_bus (snd (call c b)) (snd (call c b')).
Proof.
  intros (Hv & Hr & _ & _). unfold call. rewrite !query_closed.
  cbn [deliver values rx]. rewrite Hv, Hr.
  destruct (accepted c =? 8); cbn [fst snd]; split; try reflexivity;
    repeat split; cbn; congruence.
Qed.

Lemma elapsed_app t u : elapsed (t ++ u) = elapsed t + elapsed u.
Proof.
  induction t as [|e t IH]; simpl; [reflexivity|].
  destruct e; rewrite IH; lia.
Qed.

Lemma requests_app t u : requests (t ++ u) = requests t ++ requests u.
Proof.
  induction t as [|e t IH]; simpl; [reflexivity|].
  destruct e; rewrite IH; reflexivity.
Qed.

Lemma reads_are_silent l :
  elapsed (List.map ModRead l) = 0 /\ requests (List.map ModRead l) = [].
Proof. induction l as [|x l [IH1 IH2]]; simpl; auto. Qed.

(** A call logs ten milliseconds of delay and one request, its frame. *)
Lemma call_log c b :
  elapsed (trace (snd (call c b))) = elapsed (trace b) + 10 /\
  requests (trace (snd (call c b))) = requests (trace b) ++ [frame_of (who c)].
Proof.
  unfold call. rewrite query_closed.
  destruct (reads_are_silent (reads 7 (rx (deliver (delivered c) b))))
    as [He Hr].
  destruct (accepted c =? 8); cbn [snd trace after_request deliver];
    rewrite ?elapsed_app, ?requests_app, ?He, ?Hr; simpl;
    rewrite ?app_nil_r; split; (lia || reflexivity).
Qed.

Lemma emit_log e b :
  trace (emit e b) = trace b ++ [e].
Proof. reflexivity. Qed.

(** What a pass prints are the answers of its three calls. *)
Lemma loop_prints fmt env b :
  fst (loop fmt env b) =
    report (nth 0 (fst (run (calls_of env) b)) 0)
           (nth 1 (fst (run (calls_of env) b)) 0)
           (nth 2 (fst (run (calls_of env) b)) 0)
           (pHValue fmt (sensorValue1 env))
           (moisturePercent (sensorValue2 env)) /\
  same_bus (snd (loop fmt env b)) (snd (run (calls_of env) b)).
Proof.
  rewrite loop_closed. cbv zeta. unfold calls_of. cbn [run].
  set (cN := mkCall Nitrogen (acceptedN env) (deliveredN env)).
  set (cP := mkCall Phosphorus (acceptedP env) (deliveredP env)).
  set (cK := mkCall Potassium (acceptedK env) (deliveredK env)).
  destruct (call_same_bus cP (emit (Delay 250) (snd (call cN b)))
              (snd (call cN b)) (emit_same_bus _ _)) as [Ev2 Eb2].
  destruct (call_same_bus cK
              (emit (Delay 250)
                 (snd (call cP (emit (Delay 250) (snd (call cN b))))))
              (snd (call cP (snd (call cN b))))) as [Ev3 Eb3].
  { eapply same_bus_trans; [apply emit_same_bus | exact Eb2]. }
  destruct (call cN b) as [v1 b1] eqn:E1. cbn [fst snd] in *.
  destruct (call cP b1) as [v2 b2] eqn:E2. cbn [fst snd] in *.
  destruct (call cK b2) as [v3 b3] eqn:E3. cbn [fst snd nth] in *.
  split; [now rewrite Ev2, Ev3|].
  eapply same_bus_trans; [apply emit_same_bus|].
  eapply same_bus_trans; [apply emit_same_bus | exact Eb3].
Qed.

Lemma loop_log fmt env b :
  requests (trace (snd (loop fmt env b))) =
    requests (trace b) ++ [nitro; phos; pota] /\
  elapsed (trace (snd (loop fmt env b))) = elapsed (trace b) + 2780.
Proof.
  rewrite loop_closed. cbv zeta.
  set (cN := mkCall Nitrogen (acceptedN env) (deliveredN env)).
  set (cP := mkCall Phosphorus (acceptedP env) (deliveredP env)).
  set (cK := mkCall Potassium (acceptedK env) (deliveredK env)).
  cbn [snd].
  pose proof (call_log cN b) as [L1e L1r].
  pose proof (call_log cP (emit (Delay 250) (snd (call cN b)))) as [L2e L2r].
  pose proof (call_log cK
                (emit (Delay 250)
                   (snd (call cP (emit (Delay 250) (snd (call cN b)))))))
    as [L3e L3r].
  rewrite !emit_log, ?elapsed_app, ?requests_app in *.
  cbn [elapsed requests who cN cP cK frame_of] in *.
  rewrite ?app_nil_r in *. split.
  - rewrite L3r, L2r, L1r, <- !app_assoc. reflexivity.
  - rewrite L3e, L2e, L1e. lia.
Qed.

(** X4: one pass of [loop] is the three queries in the order nitrogen,
    phosphorus, potassium: it prints their three answers, leaves the buffer,
    the receive queue and the pins as the three calls do, writes exactly the
    three frames in that order, and spends 2780 ms in [delay] whether or not
    any write or read succeeds. *)
Theorem loop_is_three_calls fmt env b :
  fst (loop fmt env b) =
    report (nth 0 (fst (run (calls_of env) b)) 0)
           (nth 1 (fst (run (calls_of env) b)) 0)
           (nth 2 (fst (run (calls_of env) b)) 0)
           (pHValue fmt (sensorValue1 env))
           (moisturePercent (sensorValue2 env)) /\
  same_bus (snd (loop fmt env b)) (snd (run (calls_of env) b)) /\
  requests (trace (snd (loop fmt env b))) =
    requests (trace b) ++ [nitro; phos; pota] /\
  elapsed (trace (snd (loop fmt env b))) = elapsed (trace b) + 2780.
Proof.
  destruct (loop_prints fmt env b) as [Hp Hs].
  destruct (loop_log fmt env b) as [Lr Le].
  repeat split; try assumption; apply Hs.
Qed.

Lemma loop_keeps_buffer fmt env b :
  buffer_ok (values b) -> buffer_ok (values (snd (loop fmt env b))).
Proof.
  intros Hb. destruct (loop_prints fmt env b) as [_ (Hv & _)].
  rewrite Hv. apply run_keeps_buffer_from. exact Hb.
Qed.

Lemma passes_cons fmt env rest b :
  passes fmt (env :: rest) b =
  (fst (loop fmt env b) :: fst (passes fmt rest (snd (loop fmt env b))),
   snd (passes fmt rest (snd (loop fmt env b)))).
Proof.
  cbn [passes]. unfold bind, ret.
  destruct (loop fmt env b) as [printed b1]. cbn [fst snd].
  destruct (passes fmt rest b1) as [more b2]. reflexivity.
Qed.

Lemma passes_from fmt envs : forall b,
  buffer_ok (values b) ->
  buffer_ok (values (snd (passes fmt envs b))) /\
  List.length (fst (passes fmt envs b)) = List.length envs /\
  requests (trace (snd (passes fmt envs b))) =
    requests (trace b)
    ++ List.concat (repeat [nitro; phos; pota] (List.length envs)) /\
  elapsed (trace (snd (passes fmt envs b))) =
    elapsed (trace b) + 2780 * Z.of_nat (List.length envs).
Proof.
  induction envs as [|env rest IH]; intros b Hb.
  - cbn [passes ret fst snd List.length repeat List.concat].
    rewrite app_nil_r.
    split; [exact Hb|]. split; [reflexivity|]. split; [reflexivity | lia].
  - rewrite passes_cons. cbn [fst snd].
    pose proof (loop_keeps_buffer fmt env b Hb) as H1.
    pose proof (loop_log fmt env b) as [Lr Le].
    destruct (IH _ H1) as (I1 & I2 & I3 & I4).
    split; [exact I1|]. split; [simpl; now rewrite I2|]. split.
    + rewrite I3, Lr. cbn [List.length repeat List.concat].
      rewrite <- !app_assoc. reflexivity.
    + rewrite I4, Le. cbn [List.length]. lia.
Qed.

(** X5: from power-on, after [setup] and any number [n] of passes of
    [loop], whatever the bus did, the sketch has printed [n] reports, has
    written the nitrogen, phosphorus and potassium frames [n] times in that
    order, has spent 500 + 2780 n ms in [delay], and the buffer still holds
    eleven bytes of which the last four are zero. *)
Theorem sketch_after_passes fmt envs :
  List.length (fst (sketch fmt envs)) = List.length envs /\
  requests (trace (snd (sketch fmt envs))) =
    List.concat (repeat [nitro; phos; pota] (List.length envs)) /\
  elapsed (trace (snd (sketch fmt envs))) =
    500 + 2780 * Z.of_nat (List.length envs) /\
  buffer_ok (values (snd (sketch fmt envs))).
Proof.
  unfold sketch, setup, bind, delay.
  destruct (passes_from fmt envs (emit (Delay 500) power_on))
    as (H1 & H2 & H3 & H4).
  { unfold buffer_ok. cbn. repeat split; try reflexivity.
    repeat constructor; unfold is_byte; lia. }
  cbn [fst snd].
  split; [exact H2|]. split; [exact H3|]. split; [|exact H1].
  rewrite H4. reflexivity.
Qed.

Lemma call_answer_is_stored c b :
  fst (call c b) = nth 4 (values (snd (call c b))) 0.
Proof.
  unfold call. rewrite query_closed.
  destruct (accepted c =? 8); reflexivity.
Qed.

Lemma deliver_to_empty bytes b :
  rx b = [] -> rx (deliver bytes b) = bytes /\ values (deliver bytes b) = values b.
Proof. intros H. cbn [deliver rx values]. now rewrite H. Qed.

(** A call that is accepted and finds exactly its seven response bytes. *)
Lemma timely_call n b resp :
  List.length (values b) = 11%nat -> rx b = [] ->
  List.length resp = 7%nat -> Forall is_byte resp ->
  fst (call (mkCall n 8 resp) b) = nth 4 resp 0 /\
  List.length (values (snd (call (mkCall n 8 resp) b))) = 11%nat /\
  rx (snd (call (mkCall n 8 resp) b)) = [].
Proof.
  intros Hlen Hrx H7 Hb. unfold call. cbn [who accepted delivered].
  destruct (deliver_to_empty resp b Hrx) as [Hr Hv].
  split; [|split].
  - rewrite answer_closed by (rewrite Hv; exact Hlen). rewrite Hr.
    rewrite (nth_indep _ (-1) 0) by lia.
    apply byte_of_int_id. rewrite Forall_forall in Hb. apply Hb, nth_In. lia.
  - rewrite query_closed. cbn [Z.eqb Pos.eqb snd values].
    now rewrite store_from_length, Hv.
  - rewrite query_closed. cbn [Z.eqb Pos.eqb snd rx]. rewrite Hr.
    apply skipn_all2. lia.
Qed.

(** X6: in a pass that starts with an empty receive queue, when the nitrogen
    and potassium requests go out in full and their seven response bytes
    arrive in time while the phosphorus write is refused, the pass prints
    byte 4 of the nitrogen response twice, as nitrogen and as phosphorus,
    and byte 4 of the potassium response as potassium. *)
Theorem refused_phosphorus_prints_nitrogen fmt b respN respK sentP s1 s2 :
  List.length (values b) = 11%nat ->
  rx b = [] ->
  List.length respN = 7%nat -> Forall is_byte respN ->
  List.length respK = 7%nat -> Forall is_byte respK ->
  sentP <> 8 ->
  fst (loop fmt (mkCycle 8 respN sentP [] 8 respK s1 s2) b) =
    report (nth 4 respN 0) (nth 4 respN 0) (nth 4 respK 0)
           (pHValue fmt s1) (moisturePercent s2).
Proof.
  intros Hlen Hrx HN HbN HK HbK HP.
  destruct (loop_prints fmt (mkCycle 8 respN sentP [] 8 respK s1 s2) b)
    as [Hr _].
  rewrite Hr. unfold calls_of.
  cbn [run acceptedN deliveredN acceptedP deliveredP acceptedK deliveredK
       sensorValue1 sensorValue2].
  destruct (timely_call Nitrogen b respN Hlen Hrx HN HbN) as (A1 & L1 & R1).
  pose proof (call_answer_is_stored (mkCall Nitrogen 8 respN) b) as S1.
  destruct (call (mkCall Nitrogen 8 respN) b) as [v1 b1].
  cbn [fst snd] in *.
  assert (E2 : call (mkCall Phosphorus sentP []) b1
               = (v1, after_request Phosphorus sentP (deliver [] b1))).
  { unfold call. cbn [who accepted delivered]. rewrite query_closed.
    destruct (Z.eqb_spec sentP 8) as [E|_]; [contradiction|].
    cbn [deliver values]. now rewrite S1. }
  rewrite E2.
  destruct (timely_call Potassium
              (after_request Phosphorus sentP (deliver [] b1)) respK)
    as (A3 & _ & _); try assumption.
  { cbn [after_request deliver rx]. now rewrite R1. }
  destruct (call (mkCall Potassium 8 respK) _) as [v3 b3].
  cbn [fst snd nth] in *. now rewrite A1, A3.
Qed.

Lemma refused_phosphorus_prints_nitrogen_witness :
  fst (loop binary32
         (mkCycle 8 [1; 3; 2; 0; 42; 0x38; 0x5b] 0 []
                  8 [1; 3; 2; 0; 17; 0x78; 0x4a] 512 512) power_on) =
  report 42 42 17 (pHValue binary32 512) (moisturePercent 512).
Proof.
  exact (refused_phosphorus_prints_nitrogen binary32 power_on
           [1; 3; 2; 0; 42; 0x38; 0x5b] [1; 3; 2; 0; 17; 0x78; 0x4a] 0 512 512
           eq_refl eq_refl eq_refl
           ltac:(repeat constructor; unfold is_byte; lia)
           eq_refl
           ltac:(repeat constructor; unfold is_byte; lia)
           ltac:(discriminate)).
Defined.

End CycleFacts.

Section AnalogFacts.

Import Sensor Acquisition.
Local Open Scope Z_scope.

(** X7: on the ADC range the moisture percentage never decreases when the
    raw sample grows, is 0 exactly for the samples up to 10, and reaches 100
    only at the full-scale sample 1023. *)
Theorem moisture_edges raw raw' :
  0 <= raw -> raw <= raw' -> raw' <= 1023 ->
  moisturePercent raw <= moisturePercent raw' /\
  (moisturePercent raw = 0 <-> raw <= 10) /\
  (moisturePercent raw' = 100 <-> raw' = 1023).
Proof.
  intros H0 Hle Hmax.
  assert (Hm : forall x, 0 <= x -> moisturePercent x = x * 100 / 1023).
  { intros x Hx. unfold moisturePercent, Sensor.map.
    rewrite !Z.sub_0_r, Z.add_0_r. apply Z.quot_div_nonneg; lia. }
  rewrite !Hm by lia.
  pose proof (Z.div_mod (raw * 100) 1023 ltac:(lia)) as E1.
  pose proof (Z.mod_pos_bound (raw * 100) 1023 ltac:(lia)) as B1.
  pose proof (Z.div_mod (raw' * 100) 1023 ltac:(lia)) as E2.
  pose proof (Z.mod_pos_bound (raw' * 100) 1023 ltac:(lia)) as B2.
  repeat split; intros; lia.
Qed.

Lemma moisture_edges_witness :
  0 <= 10 /\ 10 <= 1022 /\ 1022 <= 1023 /\
  moisturePercent 10 <= moisturePercent 1022 /\
  (moisturePercent 10 = 0 <-> 10 <= 10) /\
  (moisturePercent 1022 = 100 <-> 1022 = 1023).
Proof.
  split; [lia|]. split; [lia|]. split; [lia|].
  exact (moisture_edges 10 1022 ltac:(lia) ltac:(lia) ltac:(lia)).
Defined.

Lemma pH_steps_checked :
  forallb (fun k => pH_step_checked binary32 (Z.of_nat k)
                    && pH_step_checked binary64 (Z.of_nat k))
          (seq 0 1023) = true.
Proof. vm_compute. reflexivity. Qed.

Lemma pH_step fmt raw :
  fmt = binary32 \/ fmt = binary64 -> 0 <= raw < 1023 ->
  exists q q',
    Q_of_float (pHValue fmt raw) = Some q /\
    Q_of_float (pHValue fmt (raw + 1)) = Some q' /\ (q < q')%Q.
Proof.
  intros Hfmt Hraw.
  pose proof pH_steps_checked as Hall. rewrite forallb_forall in Hall.
  specialize (Hall (Z.to_nat raw) ltac:(apply in_seq; lia)).
  rewrite Z2Nat.id in Hall by lia. apply andb_true_iff in Hall.
  assert (Hs : pH_step_checked fmt raw = true)
    by (destruct Hfmt as [-> | ->]; tauto).
  unfold pH_step_checked in Hs.
  destruct (Q_of_float (pHValue fmt raw)) as [q|]; [|discriminate].
  destruct (Q_of_float (pHValue fmt (raw + 1))) as [q'|]; [|discriminate].
  exists q, q'. repeat split.
  apply Qnot_le_lt. intros Hle. apply Qle_bool_iff in Hle.
  rewrite Hle in Hs. discriminate.
Qed.

Lemma pH_rational_increasing fmt (d : nat) : forall raw,
  fmt = binary32 \/ fmt = binary64 ->
  0 <= raw -> raw + 1 + Z.of_nat d <= 1023 ->
  (pH_rational fmt raw < pH_rational fmt (raw + 1 + Z.of_nat d))%Q.
Proof.
  induction d as [|d IH]; intros raw Hfmt H0 Hmax.
  - destruct (pH_step fmt raw Hfmt ltac:(lia)) as (q & q' & E & E' & Hlt).
    unfold pH_rational. rewrite Z.add_0_r, E, E'. exact Hlt.
  - eapply Qlt_trans; [apply (IH raw Hfmt H0); lia|].
    destruct (pH_step fmt (raw + 1 + Z.of_nat d) Hfmt ltac:(lia))
      as (q & q' & E & E' & Hlt).
    unfold pH_rational.
    replace (raw + 1 + Z.of_nat (S d)) with (raw + 1 + Z.of_nat d + 1) by lia.
    rewrite E, E'. exact Hlt.
Qed.

(** X8: in either float format the printed pH is strictly increasing in the
    raw sample over the ADC range: two different samples never give the same
    pH, although each product is rounded. *)
Theorem pH_strictly_increasing fmt raw raw' :
  fmt = binary32 \/ fmt = binary64 ->
  0 <= raw -> raw < raw' -> raw' <= 1023 ->
  exists q q',
    Q_of_float (pHValue fmt raw) = Some q /\
    Q_of_float (pHValue fmt raw') = Some q' /\ (q < q')%Q.
Proof.
  intros Hfmt H0 Hlt Hmax.
  pose proof (pH_rational_increasing fmt (Z.to_nat (raw' - raw - 1)) raw
                Hfmt H0 ltac:(lia)) as Hinc.
  replace (raw + 1 + Z.of_nat (Z.to_nat (raw' - raw - 1))) with raw' in Hinc
    by lia.
  destruct (pH_step fmt raw Hfmt ltac:(lia)) as (q & _ & E & _ & _).
  destruct (pH_step fmt (raw' - 1) Hfmt ltac:(lia)) as (_ & q' & _ & E' & _).
  replace (raw' - 1 + 1) with raw' in E' by lia.
  unfold pH_rational in Hinc. rewrite E, E' in Hinc.
  exists q, q'. auto.
Qed.

Lemma pH_strictly_increasing_witness :
  exists q q',
    Q_of_float (pHValue binary32 511) = Some q /\
    Q_of_float (pHValue binary32 512) = Some q' /\ (q < q')%Q.
Proof.
  exact (pH_strictly_increasing binary32 511 512 (or_introl eq_refl)
           ltac:(lia) ltac:(lia) ltac:(lia)).
Defined.

End AnalogFacts.

(* ================================================================== *)
(** * Further properties of the corpus notebook *)
(* ================================================================== *)

Section CorpusFacts.

Import Synth Fixtures.
Local Open Scope Q_scope.

Lemma lookup_app {V} (d d' : dict V) k :
  lookup (d ++ d') k =
  match lookup d k with Some v => Some v | None => lookup d' k end.
Proof.
  induction d as [|[k0 v0] rest IH]; simpl; [reflexivity|].
  destruct (String.eqb k0 k); [reflexivity | exact IH].
Qed.

Lemma lookup_setitem {V} (d : dict V) k v k' :
  lookup (setitem d k v) k' =
  if String.eqb k k' then Some v else lookup d k'.
Proof.
  induction d as [|[k0 v0] rest IH]; simpl.
  - reflexivity.
  - destruct (String.eqb_spec k0 k) as [->|Hne]; simpl.
    + destruct (String.eqb k k'); reflexivity.
    + rewrite IH. destruct (String.eqb_spec k0 k') as [->|_]; [|reflexivity].
      destruct (String.eqb_spec k k') as [->|_]; [contradiction | reflexivity].
Qed.

(** X9: in [{**d1, **d2}] a key of [d2] takes the value [d2] gave it last,
    and any other key keeps its value from [d1]. *)
Theorem merge_lookup {V} (d1 d2 : dict V) k :
  lookup (merge d1 d2) k =
  match lookup (rev d2) k with
  | Some v => Some v
  | None => lookup d1 k
  end.
Proof.
  unfold merge. revert d1.
  induction d2 as [|[k0 v0] rest IH]; intros d1; simpl; [reflexivity|].
  rewrite IH, lookup_app, lookup_setitem. simpl.
  destruct (lookup (rev rest) k); [reflexivity|].
  destruct (String.eqb k0 k); reflexivity.
Qed.

Section MoreDraws.
Variable RandomState : Type.
Variable normal : Q -> Q -> nat -> RandomState -> list Q * RandomState.

(** X10: [generate_feature] raises exactly when the standard deviation is
    negative or the feature has no declared range.  Otherwise it hands on
    the generator state the draw left and returns one value per draw, in
    order: the draw clamped to the range and rounded to the double nearest
    to a whole number of hundredths. *)
Theorem generate_feature_effect mean std size feat s :
  match generate_feature RandomState normal mean std size feat s with
  | None => std < 0 \/ lookup ranges feat = None
  | Some (col, s') =>
      0 <= std /\
      s' = snd (normal mean std size s) /\
      exists lo hi,
        lookup ranges feat = Some (lo, hi) /\
        Forall2 (clamped_and_rounded lo hi) (fst (normal mean std size s)) col
  end.
Proof.
  destruct (Qlt_le_dec std 0) as [Hneg|Hpos].
  - assert (E : Qle_bool 0 std = false).
    { destruct (Qle_bool 0 std) eqn:E; [|reflexivity].
      apply Qle_bool_iff in E. exfalso. lra. }
    unfold generate_feature, gbind, draw. rewrite E. left. exact Hneg.
  - destruct (lookup ranges feat) as [[lo hi]|] eqn:Hr.
    + rewrite (generate_feature_eq _ _ _ _ _ _ _ _ _ Hpos Hr).
      split; [exact Hpos|]. split; [reflexivity|].
      exists lo, hi. split; [reflexivity|].
      apply Forall2_of_map. intros x. apply round2_of_clip.
      exact (ranges_usable _ _ Hr).
    + unfold generate_feature, gbind, draw, subscript.
      rewrite (proj2 (Qle_bool_iff 0 std) Hpos).
      destruct (normal mean std size s) as [samples s1]. rewrite Hr.
      right. reflexivity.
Qed.

(** X11: whatever the generator draws, the five frames come in the order of
    [plant_classes] and every frame has the same twelve columns in the same
    order: the five air-quality features, then the seven soil features. *)
Theorem frames_share_columns s :
  exists frames s',
    data_list RandomState normal s = Some (frames, s') /\
    List.map Plant_Type frames = plant_classes /\
    Forall (fun df => List.map fst (columns df) = feature_names) frames.
Proof.
  destruct (data_list_shape RandomState normal (fun _ _ _ => True)
              (fun _ _ _ _ _ _ _ _ _ => I) s)
    as (frames & s' & E & Hp & H).
  exists frames, s'. split; [exact E|]. split; [exact Hp|].
  eapply Forall_impl; [|exact H]. intros df [Hn _]. exact Hn.
Qed.

(** X12: when the generator returns as many draws as it is asked for, every
    column of every frame has [n_per_class] = 2000 entries: the corpus is
    balanced, 2000 rows for each of the five species. *)
Theorem frames_are_balanced s :
  (forall mean std size s0,
      List.length (fst (normal mean std size s0)) = size) ->
  exists frames s',
    data_list RandomState normal s = Some (frames, s') /\
    List.length frames = 5%nat /\
    Forall (fun df =>
              Forall (fun col => List.length col = 2000%nat)
                     (List.map snd (columns df))) frames.
Proof.
  intros Hgen.
  destruct (data_list_shape RandomState normal
              (fun _ _ col => List.length col = n_per_class)
              (fun _ _ mean std lo hi s0 _ _ =>
                 eq_trans (length_map _ _) (Hgen mean std n_per_class s0)) s)
    as (frames & s' & E & Hp & H).
  exists frames, s'. split; [exact E|]. split.
  - rewrite <- (length_map Plant_Type), Hp. reflexivity.
  - eapply Forall_impl; [|exact H]. intros df [_ Hc].
    apply Forall_forall. intros col Hcol. apply in_map_iff in Hcol.
    destruct Hcol as ([feat col'] & <- & Hin). exact (Hc _ _ Hin).
Qed.
End MoreDraws.

Lemma frames_are_balanced_witness :
  exists frames s',
    data_list nat constant_draws 0%nat = Some (frames, s') /\
    List.length frames = 5%nat /\
    Forall (fun df =>
              Forall (fun col => List.length col = 2000%nat)
                     (List.map snd (columns df))) frames.
Proof.
  exact (frames_are_balanced nat constant_draws 0%nat
           (fun mean std size s0 => repeat_length mean size)).
Defined.

End CorpusFacts.

(* ================================================================== *)
(** * Further properties of the training notebook *)
(* ================================================================== *)

Section MoreEncoderFacts.

Import Training.
Local Open Scope string_scope.

Lemma index_of_None l label : index_of label l = None <-> ~ In label l.
Proof.
  induction l as [|h t IH]; simpl; [tauto|].
  destruct (String.eqb_spec h label) as [->|Hne].
  - split; [discriminate | tauto].
  - destruct (index_of label t) as [i|].
    + split; [discriminate|]. intros H. exfalso. apply H. right.
      apply Decidable.not_not; [|now rewrite <- IH].
      destruct (in_dec string_dec label t); [now left | now right].
    + split; [|reflexivity]. intros _ [H|H]; [contradiction|].
      now apply (proj1 IH).
Qed.

Lemma index_of_bound l : forall label i,
  index_of label l = Some i -> (i < List.length l)%nat.
Proof.
  intros label i H. apply index_of_nth_error in H.
  apply nth_error_Some. congruence.
Qed.

Lemma nth_error_index_of l : forall i label,
  NoDup l -> nth_error l i = Some label -> index_of label l = Some i.
Proof.
  induction l as [|h t IH]; intros [|i] label Hnd H; simpl in *;
    try discriminate.
  - injection H as ->. now rewrite String.eqb_refl.
  - inversion Hnd as [|? ? Hh Ht]; subst.
    destruct (String.eqb_spec h label) as [->|_].
    + exfalso. apply Hh. eapply nth_error_In; eassumption.
    + now rewrite (IH i label Ht H).
Qed.

Lemma unique_length y :
  List.length (unique y) = List.length (nodup string_dec y).
Proof.
  apply Permutation_length, NoDup_Permutation.
  - apply sorted_NoDup, unique_sorted.
  - apply NoDup_nodup.
  - intros x. rewrite In_unique, nodup_In. reflexivity.
Qed.

(** X13: [fit_transform] never raises: every label of the corpus gets a code
    below the number of distinct labels, and [inverse_transform] of the codes
    gives the corpus back, label by label. *)
Theorem fit_transform_round_trip y :
  exists codes,
    snd (fit_transform y) = Some codes /\
    List.length codes = List.length y /\
    Forall (fun i => (i < List.length (nodup string_dec y))%nat) codes /\
    List.map (decode (fst (fit_transform y))) codes = List.map Some y.
Proof.
  unfold fit_transform. cbn [fst snd].
  assert (H : forall z, (forall l, In l z -> In l y) ->
            exists codes,
              transform (fit y) z = Some codes /\
              List.length codes = List.length z /\
              Forall (fun i => (i < List.length (nodup string_dec y))%nat)
                     codes /\
              List.map (decode (fit y)) codes = List.map Some z).
  { induction z as [|l rest IH]; intros Hz.
    - exists []. repeat split. constructor.
    - destruct (IH (fun l' H' => Hz l' (or_intror H')))
        as (codes & E & Hl & Hb & Hd).
      destruct (index_of l (classes_ (fit y))) as [i|] eqn:Ei.
      + exists (i :: codes). cbn [transform]. unfold encode. rewrite Ei, E.
        repeat split.
        * simpl. now rewrite Hl.
        * constructor; [|exact Hb]. rewrite <- unique_length.
          exact (index_of_bound _ _ _ Ei).
        * simpl. rewrite Hd. f_equal. unfold decode.
          now apply index_of_nth_error.
      + exfalso. apply index_of_None in Ei. apply Ei. cbn [fit classes_].
        apply In_unique, Hz. now left. }
  apply H. auto.
Qed.

(** X14: encoding fails exactly on the labels that do not occur in the
    corpus the encoder was fitted on, and [transform] of a list fails
    exactly when the list holds such a label. *)
Theorem encode_fails_on_unseen y :
  (forall label, encode (fit y) label = None <-> ~ In label y) /\
  (forall z, transform (fit y) z = None <->
             exists label, In label z /\ ~ In label y).
Proof.
  assert (He : forall label, encode (fit y) label = None <-> ~ In label y).
  { intros label. unfold encode, fit. cbn [classes_].
    rewrite index_of_None, In_unique. reflexivity. }
  split; [exact He|].
  induction z as [|l rest IH]; cbn [transform].
  - split; [discriminate | intros (label & [] & _)].
  - destruct (encode (fit y) l) as [i|] eqn:Ei.
    + destruct (transform (fit y) rest) as [codes|].
      * split; [discriminate|]. intros (label & [<-|Hin] & Hn).
        -- apply He in Hn. congruence.
        -- assert (K : Some codes = None) by (apply IH; eauto).
           discriminate.
      * split; [|reflexivity]. intros _.
        destruct (proj1 IH eq_refl) as (label & Hin & Hn).
        exists label. split; [now right | exact Hn].
    + split; [|reflexivity]. intros _. exists l. split; [now left|].
      now apply He.
Qed.

(** X15: decoding succeeds exactly for the indices below the number of
    distinct labels of the corpus, and encoding the decoded label gives the
    index back. *)
Theorem decode_then_encode y i :
  (decode (fit y) i = None <->
     (List.length (nodup string_dec y) <= i)%nat) /\
  (forall label, decode (fit y) i = Some label ->
                 In label y /\ encode (fit y) label = Some i).
Proof.
  unfold decode, encode, fit. cbn [classes_]. split.
  - rewrite nth_error_None, unique_length. reflexivity.
  - intros label H. split.
    + apply In_unique. eapply nth_error_In; eassumption.
    + apply nth_error_index_of; [|exact H].
      apply sorted_NoDup, unique_sorted.
Qed.

Lemma sorted_head_least h t x :
  StronglySorted str_lt (h :: t) -> In x (h :: t) -> x = h \/ str_lt h x.
Proof.
  intros Hs [->|Hin]; [now left | right].
  apply StronglySorted_inv in Hs. destruct Hs as [_ Hh].
  rewrite Forall_forall in Hh. now apply Hh.
Qed.

(** Two strictly ascending lists with the same entries are equal. *)
Lemma sorted_unique_repr l : forall l',
  StronglySorted str_lt l -> StronglySorted str_lt l' ->
  (forall x, In x l <-> In x l') -> l = l'.
Proof.
  induction l as [|h t IH]; intros [|h' t'] Hs Hs' Hin.
  - reflexivity.
  - exfalso. apply (proj2 (Hin h')). now left.
  - exfalso. apply (proj1 (Hin h)). now left.
  - assert (Hh : h = h').
    { destruct (sorted_head_least h' t' h Hs'
                  (proj1 (Hin h) (or_introl eq_refl))) as [E|L1]; [exact E|].
      destruct (sorted_head_least h t h' Hs
                  (proj2 (Hin h') (or_introl eq_refl))) as [E|L2];
        [now symmetry|].
      exfalso. exact (str_lt_irrefl _ (str_lt_trans _ _ _ L1 L2)). }
    subst h'. f_equal.
    pose proof (sorted_NoDup _ Hs) as Nd. pose proof (sorted_NoDup _ Hs') as Nd'.
    inversion Nd as [|? ? Hn _]; inversion Nd' as [|? ? Hn' _]; subst.
    apply StronglySorted_inv in Hs, Hs'.
    apply IH; try tauto.
    intros x. split; intros Hx.
    + destruct (proj1 (Hin x) (or_intror Hx)) as [<-|H]; [contradiction | exact H].
    + destruct (proj2 (Hin x) (or_intror Hx)) as [<-|H]; [contradiction | exact H].
Qed.

(** X16: the fitted table depends only on which labels occur in the corpus,
    not on their order or on how often each occurs. *)
Theorem fit_depends_on_label_set y y' :
  (forall label, In label y <-> In label y') -> fit y = fit y'.
Proof.
  intros H. unfold fit. f_equal.
  apply sorted_unique_repr; try apply unique_sorted.
  intros x. rewrite !In_unique. apply H.
Qed.

Lemma fit_depends_on_label_set_witness :
  fit ["Neem"; "Amla"; "Neem"; "Mango"] = fit ["Mango"; "Neem"; "Amla"].
Proof.
  apply (fit_depends_on_label_set ["Neem"; "Amla"; "Neem"; "Mango"]
           ["Mango"; "Neem"; "Amla"]).
  intros label. simpl. tauto.
Defined.

(** X17: encoding preserves order: of two labels of the corpus, one sorts
    before the other exactly when its code is the smaller one; distinct
    labels get distinct codes. *)
Theorem encode_is_monotone y a b i j :
  encode (fit y) a = Some i -> encode (fit y) b = Some j ->
  (str_lt a b <-> (i < j)%nat) /\ (a = b <-> i = j).
Proof.
  unfold encode, fit. cbn [classes_]. intros Ea Eb.
  pose proof (unique_sorted y) as Hs.
  assert (Ha : In a (unique y))
    by (apply index_of_nth_error in Ea; eapply nth_error_In; eassumption).
  assert (Hb : In b (unique y))
    by (apply index_of_nth_error in Eb; eapply nth_error_In; eassumption).
  rewrite (index_of_sorted _ _ Hs Ha) in Ea.
  rewrite (index_of_sorted _ _ Hs Hb) in Eb.
  injection Ea as <-. injection Eb as <-.
  assert (Hlt : forall u v, In u (unique y) -> str_lt u v ->
            (List.length (List.filter (fun m => String.ltb m u) (unique y)) <
             List.length (List.filter (fun m => String.ltb m v) (unique y)))%nat).
  { intros u v Hu Huv. apply filter_length_lt with (x := u).
    - intros m Hm. apply ltb_lt. apply ltb_lt in Hm.
      eapply str_lt_trans; eassumption.
    - exact Hu.
    - now apply ltb_lt.
    - apply not_true_iff_false. rewrite ltb_lt. apply str_lt_irrefl. }
  destruct (String.compare a b) eqn:C.
  - apply String.compare_eq_iff in C. subst b.
    split; split; intros H; try reflexivity.
    + exfalso. exact (str_lt_irrefl _ H).
    + lia.
  - pose proof (Hlt a b Ha C) as H.
    split; split; intros K; try assumption; try lia.
    subst b. exfalso. exact (str_lt_irrefl _ C).
  - pose proof (Hlt b a Hb (compare_Gt_lt _ _ C)) as H.
    split; split; intros K; try lia.
    + unfold str_lt in K. congruence.
    + subst b. rewrite compare_refl in C. discriminate.
Qed.

Lemma encode_is_monotone_witness :
  (str_lt "Drumstick" "Jamun" <-> (1 < 2)%nat) /\
  ("Drumstick" = "Jamun" <-> 1%nat = 2%nat).
Proof.
  exact (encode_is_monotone corpus_head "Drumstick" "Jamun" 1 2
           eq_refl eq_refl).
Defined.

End MoreEncoderFacts.

Section MoreScalerFacts.

Import Training.
Local Open Scope R_scope.

Lemma std_nonneg c : 0 <= std c.
Proof. unfold std. apply sqrt_pos. Qed.

(** A feature that is not masked as constant has a positive variance. *)
Lemma not_constant_positive c n :
  is_constant_feature (var c) (mean c) n = false -> 0 < var c.
Proof.
  unfold is_constant_feature. cbv zeta.
  destruct (Rle_dec _ _) as [_|H]; [discriminate|]. intros _.
  pose proof (var_nonneg c) as Hv. pose proof (proj1 eps_small) as He.
  pose proof (pos_INR n) as Hn.
  pose proof (pow2_ge_0 (INR n * mean c * eps)) as Hsq.
  apply Rnot_le_lt in H.
  assert (0 <= INR n * eps * var c).
  { apply Rmult_le_pos; [apply Rmult_le_pos|]; lra. }
  lra.
Qed.

Lemma scale_positive c n :
  0 < handle_zeros_in_scale (std c)
        (is_constant_feature (var c) (mean c) n).
Proof.
  destruct (is_constant_feature (var c) (mean c) n) eqn:E; simpl; [lra|].
  unfold std. apply sqrt_lt_R0. exact (not_constant_positive c n E).
Qed.

(** X18: on a table whose rows all have the same length, fitting raises
    [ValueError] exactly when there is no row or no column.  Otherwise the
    scaler has one mean, variance and scale per column, every scale is
    strictly positive (so [transform] never divides by zero), and
    transforming the fitted mean vector gives the zero vector. *)
Theorem scaler_fit_cases X :
  (forall row row', In row X -> In row' X ->
                    List.length row = List.length row') ->
  match scaler_fit X with
  | ValueError => X = [] \/ Forall (fun row => row = []) X
  | Ok sc =>
      exists row0 rest,
        X = row0 :: rest /\ row0 <> [] /\
        List.length (mean_ sc) = List.length row0 /\
        List.length (var_ sc) = List.length row0 /\
        List.length (scale_ sc) = List.length row0 /\
        Forall (fun s => 0 < s) (scale_ sc) /\
        transform_row sc (mean_ sc) = repeat 0 (List.length row0)
  end.
Proof.
  intros Hrect.
  destruct X as [|[|x r] rest]; cbn [scaler_fit]; [now left | |].
  { right. apply Forall_forall. intros row Hrow.
    apply length_zero_iff_nil.
    exact (Hrect row [] Hrow (or_introl eq_refl)). }
  exists (x :: r), rest. set (n := List.length (x :: r)).
  cbn [mean_ var_ scale_]. rewrite !length_map, !length_seq.
  split; [reflexivity|]. split; [discriminate|].
  split; [reflexivity|]. split; [reflexivity|]. split; [reflexivity|].
  split.
  - apply Forall_forall. intros s Hs. apply in_map_iff in Hs.
    destruct Hs as (j & <- & _). apply scale_positive.
  - unfold transform_row. cbn [mean_ scale_].
    rewrite length_map, length_seq.
    apply (nth_ext _ _ 0 0).
    + now rewrite length_map, length_seq, repeat_length.
    + intros j Hj. rewrite length_map, length_seq in Hj.
      rewrite nth_map_seq by exact Hj. rewrite nth_repeat.
      unfold Rdiv. rewrite Rminus_diag. apply Rmult_0_l.
Qed.

Lemma scaler_fit_cases_witness :
  exists sc, scaler_fit degenerate_table = Ok sc /\
             Forall (fun s => 0 < s) (scale_ sc).
Proof.
  pose proof (scaler_fit_cases degenerate_table) as H.
  destruct (scaler_fit degenerate_table) as [sc|].
  - exists sc. split; [reflexivity|].
    destruct H as (row0 & rest & _ & _ & _ & _ & _ & Hs & _); [|exact Hs].
    intros row row' [<-|[<-|[]]] [<-|[<-|[]]]; reflexivity.
  - exfalso. destruct H as [H|H].
    + intros row row' [<-|[<-|[]]] [<-|[<-|[]]]; reflexivity.
    + discriminate.
    + inversion H as [|? ? H1 _]. discriminate.
Defined.








(** A feature that varies by two units in the last place is masked: its
    standard deviation is [eps], not zero, yet its scale is 1 and the
    transformed values are [-eps] and [eps]. *)
Example near_constant_feature_is_not_scaled :
  std (column 0 near_constant_table) = eps /\
  scaler_fit_transform near_constant_table =
    Ok (mkStandardScaler [1 + eps] [eps * eps] [1], [[- eps]; [eps]]).
Proof.
  pose proof eps_small as [E1 E2].
  assert (M : mean (column 0 near_constant_table) = 1 + eps)
    by (unfold mean, sum, column; simpl; field).
  assert (V : var (column 0 near_constant_table) = eps * eps).
  { unfold var. rewrite M. unfold mean, sum, column; simpl. field. }
  assert (S : std (column 0 near_constant_table) = eps)
    by (unfold std; rewrite V; apply sqrt_square; lra).
  split; [exact S|].
  unfold scaler_fit_transform, scaler_fit.
  cbn [near_constant_table List.length seq List.map].
  fold near_constant_table. rewrite M, V, S.
  assert (C : is_constant_feature (eps * eps) (1 + eps) 2 = true).
  { unfold is_constant_feature. cbv zeta.
    destruct (Rle_dec _ _) as [_|H]; [reflexivity|].
    exfalso. apply H. simpl. nra. }
  rewrite C. cbn [handle_zeros_in_scale].
  unfold scaler_transform, transform_row, near_constant_table. simpl.
  repeat f_equal; field.
Qed.

End MoreScalerFacts.

